(** * Sales data analysis dashboard (app.py): a shallow embedding

    The script loads a table of sales records (a synthetic sample or an
    uploaded CSV file), filters it by category, and computes descriptive
    and inferential statistics of the [units_sold] column.

    The script itself is a thin layer over pandas, numpy and scipy.  The
    parts of those libraries that the script calls are modelled here to the
    extent the script relies on them:
    - a data frame is a list of column names with a list of rows of typed
      cells;
    - arithmetic on statistics is exact real arithmetic extended with the
      special values of IEEE 754 (NaN and the two infinities), so that a
      division by zero yields NaN or an infinity as it does in numpy, while
      rounding is left out;
    - the quantile and the upper tail of Student's t distribution are
      parameters ([t_quantile], [t_tail]);
    - the random generator is a state with three parameters ([rng_seed],
      [rng_randint], [rng_poisson]);
    - CSV text is written as Python's [csv.writer] writes it for pandas
      and read by the state machine of pandas's tokenizer, followed by
      the inference of the column types;
    - the totals of the bar plot ([groupby(...).sum()]) are modelled on
      tables of sales records: the categories are texts, ordered
      character by character, and the sums are sums of integers. *)

From Stdlib Require Import ZArith List String Ascii Bool Arith Lia.
From Stdlib Require Import Reals Lra Sorted Permutation.
From Stdlib Require Decimal DecimalString DecimalZ DecimalNat DecimalFacts DecimalPos.
Import ListNotations.

Local Open Scope string_scope.
Local Open Scope list_scope.

(** ** Exceptions and results *)

Inductive exn : Type :=
| KeyError (key : string)
| TypeError
| ParserError
| EmptyDataError.

Inductive result (A : Type) : Type :=
| Ok (a : A)
| Raise (e : exn).

Arguments Ok {A} a.
Arguments Raise {A} e.

Definition bind {A B : Type} (r : result A) (k : A -> result B) : result B :=
  match r with
  | Ok a => k a
  | Raise e => Raise e
  end.

Notation "x <- c1 ;; c2" := (bind c1 (fun x => c2))
  (at level 61, c1 at next level, right associativity).

(** ** Calendar dates ([pd.date_range], [Timestamp]) *)

Record date : Type := mkdate { year : nat; month : nat; day : nat }.

Definition is_leap (y : nat) : bool :=
  (((y mod 4 =? 0) && negb (y mod 100 =? 0)) || (y mod 400 =? 0))%nat.

Definition days_in_month (y m : nat) : nat :=
  match m with
  | 2 => if is_leap y then 29 else 28
  | 4 | 6 | 9 | 11 => 30
  | _ => 31
  end.

Definition next_day (d : date) : date :=
  if (day d <? days_in_month (year d) (month d))%nat
  then mkdate (year d) (month d) (S (day d))
  else if (month d <? 12)%nat
       then mkdate (year d) (S (month d)) 1
       else mkdate (S (year d)) 1 1.

(** [pd.date_range(start=..., periods=n, freq='D')] *)
Fixpoint date_range (start : date) (periods : nat) : list date :=
  match periods with
  | O => []
  | S n => start :: date_range (next_day start) n
  end.

(** ** Cells and data frames *)

Inductive value : Type :=
| VInt (z : Z)            (* int64 *)
| VFloat (lit : string)   (* float64, kept as its decimal literal *)
| VBool (b : bool)
| VStr (s : string)       (* object: a Python str *)
| VDate (d : date)        (* datetime64[ns] *)
| VNaN.

Record DataFrame : Type := mkDataFrame {
  columns : list string;
  rows : list (list value)
}.

Fixpoint index_of (name : string) (names : list string) : option nat :=
  match names with
  | [] => None
  | n :: rest =>
      if String.eqb name n then Some O
      else option_map S (index_of name rest)
  end.

(** [df[name]]: the column as a series, KeyError when there is none. *)
Definition getitem (df : DataFrame) (name : string) : result (list value) :=
  match index_of name (columns df) with
  | None => Raise (KeyError name)
  | Some i => Ok (map (fun r => nth i r VNaN) (rows df))
  end.

(** [series.isin(values)] for a list of strings. *)
Definition isin_cell (values : list string) (v : value) : bool :=
  match v with
  | VStr s => existsb (String.eqb s) values
  | _ => false
  end.

Definition isin (series : list value) (values : list string) : list bool :=
  map (isin_cell values) series.

(** Selection of the positions a boolean mask marks. *)
Fixpoint select {A : Type} (mask : list bool) (l : list A) : list A :=
  match mask, l with
  | b :: mask', x :: l' => if b then x :: select mask' l' else select mask' l'
  | _, _ => []
  end.

(** [df[mask]]: a new frame with the rows the mask marks. *)
Definition getitem_mask (df : DataFrame) (mask : list bool) : DataFrame :=
  mkDataFrame (columns df) (select mask (rows df)).

(** ** The category filter (app.py, lines 119-120)

    [if filter_category:
         df_sales = df_sales[df_sales['category'].isin(filter_category)]] *)

Definition apply_filter (filter_category : list string) (df_sales : DataFrame)
  : result DataFrame :=
  match filter_category with
  | [] => Ok df_sales
  | _ :: _ =>
      category <- getitem df_sales "category" ;;
      Ok (getitem_mask df_sales (isin category filter_category))
  end.

(** The same statement on a store of objects: the variable [df_sales]
    holds the address of a frame; boolean indexing allocates a new frame
    and the assignment rebinds the variable. *)

Record store : Type := mkStore {
  heap : list DataFrame;
  df_sales_ref : nat
}.

Definition filter_stmt (filter_category : list string) (st : store)
  : result store :=
  match filter_category with
  | [] => Ok st
  | _ :: _ =>
      match nth_error (heap st) (df_sales_ref st) with
      | None => Raise (KeyError "df_sales")
      | Some df =>
          df' <- apply_filter filter_category df ;;
          Ok (mkStore (heap st ++ [df']) (List.length (heap st)))
      end
  end.

(** The category of a row: the cell of the row in
    the [category] column. *)
Definition category_of (df : DataFrame) (r : list value) : value :=
  match index_of "category" (columns df) with
  | Some i => nth i r VNaN
  | None => VNaN
  end.

(** A subsequence: the elements of the first list appear in the second in
    the same relative order. *)
Inductive subseq {A : Type} : list A -> list A -> Prop :=
| subseq_nil : subseq [] []
| subseq_skip x l1 l2 : subseq l1 l2 -> subseq l1 (x :: l2)
| subseq_keep x l1 l2 : subseq l1 l2 -> subseq (x :: l1) (x :: l2).

(** ** Numbers of the statistics: reals with the IEEE special values *)

Inductive fnum : Type :=
| Fin (r : R)
| PInf
| NInf
| NaN.

Definition fneg (x : fnum) : fnum :=
  match x with
  | Fin r => Fin (- r)
  | PInf => NInf
  | NInf => PInf
  | NaN => NaN
  end.

Definition fadd (x y : fnum) : fnum :=
  match x, y with
  | NaN, _ | _, NaN => NaN
  | Fin a, Fin b => Fin (a + b)
  | PInf, NInf | NInf, PInf => NaN
  | PInf, _ | _, PInf => PInf
  | NInf, _ | _, NInf => NInf
  end.

Definition fsub (x y : fnum) : fnum := fadd x (fneg y).

(** The infinity of the sign of [r]; NaN when [r] is zero. *)
Definition inf_of_sign (r : R) : fnum :=
  match total_order_T r 0 with
  | inleft (left _) => NInf
  | inleft (right _) => NaN
  | inright _ => PInf
  end.

Definition fmul (x y : fnum) : fnum :=
  match x, y with
  | NaN, _ | _, NaN => NaN
  | Fin a, Fin b => Fin (a * b)
  | Fin a, PInf | PInf, Fin a => inf_of_sign a
  | Fin a, NInf | NInf, Fin a => inf_of_sign (- a)
  | PInf, PInf | NInf, NInf => PInf
  | PInf, NInf | NInf, PInf => NInf
  end.

(** Division as numpy does it with the warnings silenced: [0/0] is NaN,
    [a/0] is the infinity of the sign of [a]. *)
Definition fdiv (x y : fnum) : fnum :=
  match x, y with
  | NaN, _ | _, NaN => NaN
  | Fin a, Fin b =>
      if Req_dec_T b 0 then inf_of_sign a else Fin (a / b)
  | Fin _, (PInf | NInf) => Fin 0
  | PInf, Fin b => if Rlt_dec b 0 then NInf else PInf
  | NInf, Fin b => if Rlt_dec b 0 then PInf else NInf
  | (PInf | NInf), (PInf | NInf) => NaN
  end.

Definition fsqrt (x : fnum) : fnum :=
  match x with
  | Fin r => if Rlt_dec r 0 then NaN else Fin (sqrt r)
  | PInf => PInf
  | NInf | NaN => NaN
  end.

Definition fabs (x : fnum) : fnum :=
  match x with
  | Fin r => Fin (Rabs r)
  | PInf | NInf => PInf
  | NaN => NaN
  end.

Definition of_Z (z : Z) : fnum := Fin (IZR z).
Definition of_nat (n : nat) : fnum := Fin (INR n).

(** Order on the numbers; NaN is comparable to nothing. *)
Definition fle (x y : fnum) : Prop :=
  match x, y with
  | NaN, _ | _, NaN => False
  | NInf, _ | _, PInf => True
  | Fin a, Fin b => (a <= b)%R
  | _, _ => False
  end.

Definition is_nan (x : fnum) : bool :=
  match x with
  | NaN => true
  | _ => false
  end.

(** ** Series of integers: sum, sort, counts *)

Definition zsum (xs : list Z) : Z := fold_left Z.add xs 0%Z.

Fixpoint insert (x : Z) (l : list Z) : list Z :=
  match l with
  | [] => [x]
  | y :: l' => if (x <=? y)%Z then x :: l else y :: insert x l'
  end.

Fixpoint sort (l : list Z) : list Z :=
  match l with
  | [] => []
  | x :: l' => insert x (sort l')
  end.

Definition max_count (xs : list Z) : nat :=
  fold_right (fun v m => Nat.max (count_occ Z.eq_dec xs v) m) O xs.

(** ** pandas reductions on an int64 series *)

(** [Series.mean()]: sum over count, NaN on the empty series. *)
Definition series_mean (xs : list Z) : fnum :=
  fdiv (of_Z (zsum xs)) (of_nat (List.length xs)).

(** [Series.median()]: the middle of the sorted values, the mean of the
    two middle values for an even count, NaN on the empty series. *)
Definition series_median (xs : list Z) : fnum :=
  let s := sort xs in
  let n := List.length xs in
  match n with
  | O => NaN
  | _ =>
      if Nat.even n
      then fdiv (fadd (of_Z (nth (n / 2 - 1) s 0%Z)) (of_Z (nth (n / 2) s 0%Z)))
                (Fin 2)
      else of_Z (nth (n / 2) s 0%Z)
  end.

(** [Series.mode()]: the values of the highest count, sorted. *)
Definition series_mode (xs : list Z) : list Z :=
  sort (filter (fun v => (count_occ Z.eq_dec xs v =? max_count xs)%nat)
               (nodup Z.eq_dec xs)).

(** Sum of the squared deviations from [m]. *)
Definition sum_sq_dev (m : fnum) (xs : list Z) : fnum :=
  fold_left (fun acc x => fadd acc (fmul (fsub (of_Z x) m) (fsub (of_Z x) m)))
            xs (Fin 0).

(** [Series.std()] (ddof = 1): NaN when the count is at most [ddof]. *)
Definition series_std (xs : list Z) : fnum :=
  let n := List.length xs in
  if (n <=? 1)%nat then NaN
  else fsqrt (fdiv (sum_sq_dev (series_mean xs) xs) (of_nat (n - 1))).

Definition series_min (xs : list Z) : fnum :=
  match sort xs with
  | [] => NaN
  | m :: _ => of_Z m
  end.

Definition series_max (xs : list Z) : fnum :=
  match List.rev (sort xs) with
  | [] => NaN
  | m :: _ => of_Z m
  end.

(** [Series.quantile(k/4)] with linear interpolation: position
    [(n-1)*k/4] in the sorted values. *)
Definition series_quartile (k : nat) (xs : list Z) : fnum :=
  let s := sort xs in
  let n := List.length xs in
  match n with
  | O => NaN
  | _ =>
      let pos4 := ((n - 1) * k)%nat in
      let lo := (pos4 / 4)%nat in
      let lov := nth lo s 0%Z in
      let hiv := nth (S lo) s lov in
      fadd (of_Z lov)
           (fmul (of_Z (hiv - lov)) (fdiv (of_nat (pos4 mod 4)) (Fin 4)))
  end.

Record desc_stats : Type := mkDesc {
  d_count : nat;
  d_mean : fnum;
  d_std : fnum;
  d_min : fnum;
  d_q25 : fnum;
  d_q50 : fnum;
  d_q75 : fnum;
  d_max : fnum
}.

(** [Series.describe()] *)
Definition series_describe (xs : list Z) : desc_stats :=
  mkDesc (List.length xs) (series_mean xs) (series_std xs) (series_min xs)
         (series_quartile 1 xs) (series_quartile 2 xs) (series_quartile 3 xs)
         (series_max xs).

(** ** numpy and scipy on an int64 array *)

(** [np.mean] *)
Definition np_mean (xs : list Z) : fnum :=
  fdiv (of_Z (zsum xs)) (of_nat (List.length xs)).

(** [np.var(a, ddof)]: the squared deviations from the mean, summed and
    divided by [max (n - ddof) 0]. *)
Definition np_var (xs : list Z) (ddof : nat) : fnum :=
  fdiv (sum_sq_dev (np_mean xs) xs) (of_nat (List.length xs - ddof)).

(** [scipy.stats.sem(a, ddof)]: [np.std(a, ddof) / np.sqrt(n)] *)
Definition stats_sem (xs : list Z) (ddof : nat) : fnum :=
  fdiv (fsqrt (np_var xs ddof)) (fsqrt (of_nat (List.length xs))).

(** The statistic of [scipy.stats.ttest_1samp(a, popmean)]:
    [d = mean - popmean], [denom = sqrt(var / n)], [t = d / denom]. *)
Definition ttest_statistic (xs : list Z) (popmean : R) : fnum :=
  let n := List.length xs in
  let d := fsub (np_mean xs) (Fin popmean) in
  let v := np_var xs 1 in
  let denom := fsqrt (fdiv v (of_nat n)) in
  fdiv d denom.

(** Student's t distribution: the quantile at a probability in (0,1) and
    the upper tail probability, for a positive number of degrees of
    freedom. *)
Record TDist : Type := mkTDist {
  t_quantile : R -> Z -> R;
  t_tail : R -> Z -> R
}.

Section Scipy.

Variable T : TDist.

(** [scipy.stats.t.ppf(q, df)]: NaN outside the domain. *)
Definition stats_t_ppf (q : R) (df : Z) : fnum :=
  if (df <=? 0)%Z then NaN
  else match total_order_T q 0, total_order_T q 1 with
       | inright _, inleft (left _) => Fin (t_quantile T q df)
       | inleft (right _), _ => NInf
       | _, inleft (right _) => PInf
       | _, _ => NaN
       end.

(** [scipy.stats.t.sf(x, df)] *)
Definition stats_t_sf (x : fnum) (df : Z) : fnum :=
  if (df <=? 0)%Z then NaN
  else match x with
       | Fin r => Fin (t_tail T r df)
       | PInf => Fin 0
       | NInf => Fin 1
       | NaN => NaN
       end.

(** [scipy.stats.ttest_1samp(a, popmean)], two-sided: the statistic
    and twice the upper tail beyond its absolute value. *)
Definition stats_ttest_1samp (xs : list Z) (popmean : R) : fnum * fnum :=
  let n := List.length xs in
  let df := (Z.of_nat n - 1)%Z in
  let t := ttest_statistic xs popmean in
  (t, fmul (stats_t_sf (fabs t) df) (Fin 2)).

End Scipy.

(** ** The two calculators (app.py, lines 47-63) on the [units_sold] series *)

Definition mode_val_of (xs : list Z) : fnum :=
  match series_mode xs with
  | [] => NaN
  | m :: _ => of_Z m
  end.

Definition descriptive_stats_of (xs : list Z)
  : desc_stats * fnum * fnum * fnum :=
  (series_describe xs, series_mean xs, series_median xs, mode_val_of xs).

Definition inferential_stats_of (T : TDist) (xs : list Z)
  (confidence_level test_mean : R) : (fnum * fnum) * (fnum * fnum) :=
  let n := List.length xs in
  let mean_val := series_mean xs in
  let se := stats_sem xs 1 in
  let t_crit := stats_t_ppf T ((1 + confidence_level) / 2) (Z.of_nat n - 1) in
  let margin_of_error := fmul t_crit se in
  ((fsub mean_val margin_of_error, fadd mean_val margin_of_error),
   stats_ttest_1samp T xs test_mean).

(** The numeric view of a series: the statistics are modelled on int64
    series, the type of [units_sold] in the data model; a series that
    holds anything else is reported as a TypeError, which is what pandas
    raises on text. *)
Fixpoint to_int64 (series : list value) : result (list Z) :=
  match series with
  | [] => Ok []
  | VInt z :: rest => xs <- to_int64 rest ;; Ok (z :: xs)
  | _ :: _ => Raise TypeError
  end.

(** [df['units_sold']] as numbers. *)
Definition units_sold (df : DataFrame) : result (list Z) :=
  series <- getitem df "units_sold" ;;
  to_int64 series.

Definition calculate_descriptive_stats (df : DataFrame)
  : result (desc_stats * fnum * fnum * fnum) :=
  xs <- units_sold df ;;
  Ok (descriptive_stats_of xs).

Definition calculate_inferential_stats (T : TDist) (df : DataFrame)
  (confidence_level test_mean : R)
  : result ((fnum * fnum) * (fnum * fnum)) :=
  xs <- units_sold df ;;
  Ok (inferential_stats_of T xs confidence_level test_mean).

(** ** The decision rule (app.py, lines 145-148)

    [if ttest[1] < 0.05: st.success("Reject the null hypothesis ...")
     else: st.info("Fail to reject the null hypothesis ...")] *)

(** [x < y] on the numbers: false as soon as one side is NaN. *)
Definition flt (x y : fnum) : bool :=
  match x, y with
  | NaN, _ | _, NaN => false
  | Fin a, Fin b => if Rlt_dec a b then true else false
  | NInf, (Fin _ | PInf) => true
  | Fin _, PInf => true
  | _, _ => false
  end.

Inductive verdict : Type :=
| RejectNull
| FailToReject.

Definition decision (p_val : fnum) : verdict :=
  if flt p_val (Fin (5 / 100)) then RejectNull else FailToReject.

(** The message the script shows after the inferential calculator. *)
Definition significance_verdict (T : TDist) (df : DataFrame)
  (confidence_level test_mean : R) : result verdict :=
  r <- calculate_inferential_stats T df confidence_level test_mean ;;
  Ok (decision (snd (snd r))).

(** ** The synthetic sample (app.py, lines 31-41) *)

(** numpy's global generator: a state, seeding, and the two single draws
    the script uses.  [rng_randint s n] draws an index below [n];
    [rng_poisson s lam] draws a Poisson count of mean [lam]. *)
Record RNG : Type := mkRNG {
  rng_state : Type;
  rng_seed : Z -> rng_state;
  rng_randint : rng_state -> nat -> nat * rng_state;
  rng_poisson : rng_state -> Z -> Z * rng_state
}.

Section Generator.

Variable G : RNG.

(** [size] draws in sequence, threading the state. *)
Fixpoint draws {A : Type} (draw : rng_state G -> A * rng_state G)
  (size : nat) (s : rng_state G) : list A * rng_state G :=
  match size with
  | O => ([], s)
  | S k =>
      let (x, s1) := draw s in
      let (xs, s2) := draws draw k s1 in
      (x :: xs, s2)
  end.

(** [np.random.choice(a, size)]: [size] indices below [len(a)], then
    the elements at those indices. *)
Definition np_random_choice (a : list string) (size : nat)
  (s : rng_state G) : list string * rng_state G :=
  let (idx, s') := draws (fun s0 => rng_randint G s0 (List.length a)) size s in
  (map (fun i => nth i a "") idx, s').

(** [np.random.poisson(lam, size)] *)
Definition np_random_poisson (lam : Z) (size : nat)
  (s : rng_state G) : list Z * rng_state G :=
  draws (fun s0 => rng_poisson G s0 lam) size s.

End Generator.

Definition categories : list string :=
  ["Electronics"; "Clothing"; "Home"; "Sports"].

Definition schema : list string :=
  ["product_id"; "product_name"; "category"; "units_sold"; "sale_date"].

(** [str(i)] for a natural number. *)
Definition str_of_nat (n : nat) : string :=
  DecimalString.NilZero.string_of_uint (Nat.to_uint n).

(** One row of the sample, in the order of the dictionary's keys. *)
Definition sample_row (i : nat) (name category : string) (units : Z)
  (d : date) : list value :=
  [VInt (Z.of_nat i); VStr name; VStr category; VInt units; VDate d].

(** [pd.DataFrame(data)] for the five columns of the sample: the rows are
    the columns read side by side. *)
Fixpoint zip_rows (ids : list nat) (names cats : list string)
  (units : list Z) (dates : list date) : list (list value) :=
  match ids, names, cats, units, dates with
  | i :: ids', n :: names', c :: cats', u :: units', d :: dates' =>
      sample_row i n c u d :: zip_rows ids' names' cats' units' dates'
  | _, _, _, _, _ => []
  end.

(** [generate_sample_data()]: the global generator is in state [s] when
    the function is called; the table and the state it leaves. *)
Definition generate_sample_data (G : RNG) (s : rng_state G)
  : DataFrame * rng_state G :=
  let s0 := rng_seed G 42 in
  let ids := seq 1 20 in
  let names := map (fun i => ("Product " ++ str_of_nat i)%string) (seq 1 20) in
  let (cats, s1) := np_random_choice G categories 20 s0 in
  let (units, s2) := np_random_poisson G 20 20 s1 in
  let dates := date_range (mkdate 2023 1 1) 20 in
  (mkDataFrame schema (zip_rows ids names cats units dates), s2).

(** ** CSV text: the writer ([DataFrame.to_csv], Python's [csv.writer])

    The dialect is pandas's default: comma, double quote, minimal
    quoting with doubled quotes, line feed as the line terminator. *)

Definition quote_char : ascii := ascii_of_nat 34.
Definition LF : ascii := ascii_of_nat 10.
Definition CR : ascii := ascii_of_nat 13.
Definition TAB : ascii := ascii_of_nat 9.

(** The characters that make the writer quote a field: the delimiter, the
    quote character and the characters of the line terminator. *)
Definition is_special (c : ascii) : bool :=
  Ascii.eqb c "," || Ascii.eqb c quote_char || Ascii.eqb c LF.

Fixpoint needs_quote (s : string) : bool :=
  match s with
  | EmptyString => false
  | String c s' => is_special c || needs_quote s'
  end.

Fixpoint escape_quotes (s : string) : string :=
  match s with
  | EmptyString => EmptyString
  | String c s' =>
      if Ascii.eqb c quote_char
      then String quote_char (String quote_char (escape_quotes s'))
      else String c (escape_quotes s')
  end.

Definition render_field (s : string) : string :=
  if needs_quote s
  then String quote_char (escape_quotes s ++ String quote_char EmptyString)%string
  else s.

Fixpoint join_fields (fs : list string) : string :=
  match fs with
  | [] => EmptyString
  | [f] => f
  | f :: rest => (f ++ String "," (join_fields rest))%string
  end.

(** [writer.writerow(fields)]: a row of one empty field is written as a
    pair of quotes, so that the line is not empty. *)
Definition writerow (fs : list string) : string :=
  match fs with
  | [EmptyString] =>
      String quote_char (String quote_char (String LF EmptyString))
  | _ => (join_fields (map render_field fs) ++ String LF EmptyString)%string
  end.

(** [str(z)] for an integer. *)
Definition str_of_Z (z : Z) : string :=
  DecimalString.NilZero.string_of_int (Z.to_int z).

Fixpoint zeros (n : nat) : string :=
  match n with
  | O => EmptyString
  | S k => String "0" (zeros k)
  end.

(** A natural number on at least [w] digits. *)
Definition zero_pad (w n : nat) : string :=
  let s := str_of_nat n in
  (zeros (w - String.length s) ++ s)%string.

(** The ISO 8601 text of a date, as [to_csv] writes a column of
    midnights. *)
Definition isoformat (d : date) : string :=
  (zero_pad 4 (year d) ++ String "-" (zero_pad 2 (month d)
   ++ String "-" (zero_pad 2 (day d))))%string.

(** The text of a cell; NaN is the empty text ([na_rep='']). *)
Definition format_value (v : value) : string :=
  match v with
  | VInt z => str_of_Z z
  | VFloat lit => lit
  | VBool true => "True"
  | VBool false => "False"
  | VStr s => s
  | VDate d => isoformat d
  | VNaN => EmptyString
  end.

Fixpoint concat_lines (ls : list string) : string :=
  match ls with
  | [] => EmptyString
  | l :: rest => (l ++ concat_lines rest)%string
  end.

(** [df.to_csv(buffer, index=False)]: the header, then one line a row. *)
Definition to_csv (df : DataFrame) : string :=
  (writerow (columns df)
   ++ concat_lines (map (fun r => writerow (map format_value r)) (rows df)))%string.

(** [download_df(df)] (app.py, lines 97-100) *)
Definition download_df (df : DataFrame) : string := to_csv df.

(** ** CSV text: the reader ([pd.read_csv], the C tokenizer)

    The tokenizer is the state machine of pandas's [tokenizer.c] with the
    default options: a field is pushed character by character, a comma
    ends the field, a line feed or a carriage return ends the line, a
    quote at the start of a field opens a quoted field in which a doubled
    quote stands for a quote, and lines that are empty or hold only blanks
    are skipped. *)

Inductive tstate : Type :=
| StartRecord
| StartField
| InField
| InQuotedField
| QuoteInQuotedField
| EatCRNL
| EatCRNLNop
| WhitespaceLine.

Record tokenizer : Type := mkTok {
  state : tstate;
  field : string;               (* the field being read *)
  fields : list string;         (* the fields of the line being read *)
  lines : list (list string)    (* the lines read *)
}.

Definition set_state (st : tstate) (t : tokenizer) : tokenizer :=
  mkTok st (field t) (fields t) (lines t).

Definition push_char (c : ascii) (t : tokenizer) : tokenizer :=
  mkTok (state t) (field t ++ String c EmptyString)%string (fields t) (lines t).

Definition end_field (t : tokenizer) : tokenizer :=
  mkTok (state t) EmptyString (fields t ++ [field t]) (lines t).

Definition end_line (t : tokenizer) : tokenizer :=
  mkTok StartRecord EmptyString [] (lines t ++ [fields t]).

Definition drop_field (t : tokenizer) : tokenizer :=
  mkTok (state t) EmptyString (fields t) (lines t).

Definition is_blank (c : ascii) : bool :=
  Ascii.eqb c " " || Ascii.eqb c TAB.

Definition step_in_field (t : tokenizer) (c : ascii) : tokenizer :=
  if Ascii.eqb c LF then end_line (end_field t)
  else if Ascii.eqb c CR then set_state EatCRNL (end_field t)
  else if Ascii.eqb c "," then set_state StartField (end_field t)
  else set_state InField (push_char c t).

Definition step_start_field (t : tokenizer) (c : ascii) : tokenizer :=
  if Ascii.eqb c LF then end_line (end_field t)
  else if Ascii.eqb c CR then set_state EatCRNL (end_field t)
  else if Ascii.eqb c quote_char then set_state InQuotedField t
  else if Ascii.eqb c "," then set_state StartField (end_field t)
  else set_state InField (push_char c t).

Definition step_start_record (t : tokenizer) (c : ascii) : tokenizer :=
  if Ascii.eqb c LF then t
  else if Ascii.eqb c CR then set_state EatCRNLNop t
  else if is_blank c then set_state WhitespaceLine (push_char c t)
  else step_start_field t c.

Definition step (t : tokenizer) (c : ascii) : tokenizer :=
  match state t with
  | StartRecord => step_start_record t c
  | StartField => step_start_field t c
  | InField => step_in_field t c
  | InQuotedField =>
      if Ascii.eqb c quote_char then set_state QuoteInQuotedField t
      else push_char c t
  | QuoteInQuotedField =>
      if Ascii.eqb c quote_char then set_state InQuotedField (push_char c t)
      else if Ascii.eqb c "," then set_state StartField (end_field t)
      else if Ascii.eqb c LF then end_line (end_field t)
      else if Ascii.eqb c CR then set_state EatCRNL (end_field t)
      else set_state InField (push_char c t)
  | EatCRNL =>
      if Ascii.eqb c LF then end_line t
      else step_start_record (end_line t) c
  | EatCRNLNop =>
      if Ascii.eqb c LF || Ascii.eqb c "," then set_state StartRecord t
      else step_start_record (set_state StartRecord t) c
  | WhitespaceLine =>
      if Ascii.eqb c LF then set_state StartRecord (drop_field t)
      else if Ascii.eqb c CR then set_state EatCRNLNop (drop_field t)
      else if is_blank c then push_char c t
      else step_in_field t c
  end.

Fixpoint tokenize_bytes (s : string) (t : tokenizer) : tokenizer :=
  match s with
  | EmptyString => t
  | String c s' => tokenize_bytes s' (step t c)
  end.

(** The end of the data: an open quoted field is an error, an open line
    is closed. *)
Definition handle_eof (t : tokenizer) : result (list (list string)) :=
  match state t with
  | StartRecord | WhitespaceLine | EatCRNLNop => Ok (lines t)
  | InQuotedField => Raise ParserError
  | InField | StartField | QuoteInQuotedField =>
      Ok (lines (end_line (end_field t)))
  | EatCRNL => Ok (lines (end_line t))
  end.

Definition tokenize (file : string) : result (list (list string)) :=
  handle_eof (tokenize_bytes file (mkTok StartRecord EmptyString [] [])).

(** The widths of the lines: the first data line is filled up to the
    width of the header; every later line is filled up to the width of
    the line before it and may not be wider. *)
Definition fill (w : nat) (l : list string) : list string :=
  l ++ repeat EmptyString (w - List.length l).

Fixpoint check_widths (w : nat) (data : list (list string))
  : result (list (list string)) :=
  match data with
  | [] => Ok []
  | l :: rest =>
      if (w <? List.length l)%nat then Raise ParserError
      else rest' <- check_widths w rest ;; Ok (fill w l :: rest')
  end.

(** The data lines at the width of the table; when the first data line is
    wider than the header, the leading fields in excess are the index,
    which the frames here do not carry. *)
Definition shape (k : nat) (data : list (list string))
  : result (list (list string)) :=
  match data with
  | [] => Ok []
  | first :: rest =>
      let first' := fill k first in
      let w := List.length first' in
      rest' <- check_widths w rest ;;
      Ok (map (skipn (w - k)) (first' :: rest'))
  end.

(** *** Type inference *)

(** The texts read as a missing value. *)
Definition na_values : list string :=
  [ EmptyString; "#N/A"; "#N/A N/A"; "#NA"; "-1.#IND"; "-1.#QNAN"; "-NaN";
    "-nan"; "1.#IND"; "1.#QNAN"; "<NA>"; "N/A"; "NA"; "NULL"; "NaN"; "None";
    "n/a"; "nan"; "null" ].

Definition is_na (s : string) : bool := existsb (String.eqb s) na_values.

Definition is_space (c : ascii) : bool :=
  let n := nat_of_ascii c in
  (n =? 32)%nat || ((9 <=? n)%nat && (n <=? 13)%nat).

Definition is_digit (c : ascii) : bool :=
  let n := nat_of_ascii c in
  (48 <=? n)%nat && (n <=? 57)%nat.

Fixpoint all_space (s : string) : bool :=
  match s with
  | EmptyString => true
  | String c s' => is_space c && all_space s'
  end.

Fixpoint lstrip (s : string) : string :=
  match s with
  | EmptyString => EmptyString
  | String c s' => if is_space c then lstrip s' else s
  end.

Fixpoint rstrip (s : string) : string :=
  match s with
  | EmptyString => EmptyString
  | String c s' => if all_space s then EmptyString else String c (rstrip s')
  end.

Definition strip (s : string) : string := rstrip (lstrip s).

Definition int64_min : Z := (- 2 ^ 63)%Z.
Definition int64_max : Z := (2 ^ 63 - 1)%Z.

(** An integer literal: blanks, an optional sign, digits, blanks; within
    64 bits. *)
Definition parse_int64 (s : string) : option Z :=
  let t := strip s in
  let d :=
    match t with
    | EmptyString => None
    | String c r =>
        if Ascii.eqb c "+"
        then option_map Decimal.Pos (DecimalString.NilZero.uint_of_string r)
        else DecimalString.NilZero.int_of_string t
    end in
  match d with
  | Some i =>
      let z := Z.of_int i in
      if ((int64_min <=? z) && (z <=? int64_max))%Z then Some z else None
  | None => None
  end.

Fixpoint skip_digits (s : string) : string :=
  match s with
  | EmptyString => EmptyString
  | String c s' => if is_digit c then skip_digits s' else s
  end.

Definition starts_with_digit (s : string) : bool :=
  match s with
  | EmptyString => false
  | String c _ => is_digit c
  end.

Definition skip_sign (s : string) : string :=
  match s with
  | EmptyString => EmptyString
  | String c r => if Ascii.eqb c "+" || Ascii.eqb c "-" then r else s
  end.

(** The exponent of a decimal literal, if there is one: what follows it,
    or nothing when the exponent has no digit. *)
Definition skip_exponent (s : string) : option string :=
  match s with
  | EmptyString => Some EmptyString
  | String c r =>
      if Ascii.eqb c "e" || Ascii.eqb c "E"
      then let r' := skip_sign r in
           if starts_with_digit r' then Some (skip_digits r') else None
      else Some s
  end.

Definition lower (c : ascii) : ascii :=
  let n := nat_of_ascii c in
  if ((65 <=? n) && (n <=? 90))%nat then ascii_of_nat (n + 32) else c.

Fixpoint lowercase (s : string) : string :=
  match s with
  | EmptyString => EmptyString
  | String c s' => String (lower c) (lowercase s')
  end.

(** A decimal literal: an optional sign, digits with an optional point,
    an optional exponent; or an infinity. *)
Definition is_float_literal (s : string) : bool :=
  let t := strip s in
  let body := skip_sign t in
  let after_int := skip_digits body in
  let fraction :=
    match after_int with
    | EmptyString => None
    | String c r => if Ascii.eqb c "." then Some r else None
    end in
  let after_frac :=
    match fraction with
    | Some r => skip_digits r
    | None => after_int
    end in
  let has_digit :=
    starts_with_digit body ||
    match fraction with
    | Some r => starts_with_digit r
    | None => false
    end in
  (has_digit &&
   match skip_exponent after_frac with
   | Some EmptyString => true
   | _ => false
   end)
  || existsb (String.eqb (lowercase body)) ["inf"; "infinity"].

Definition parse_bool (s : string) : option bool :=
  if existsb (String.eqb s) ["True"; "TRUE"; "true"] then Some true
  else if existsb (String.eqb s) ["False"; "FALSE"; "false"] then Some false
  else None.

Inductive token_class : Type :=
| CNA
| CInt (z : Z)
| CFloat
| CBool (b : bool)
| CText.

Definition classify (s : string) : token_class :=
  if is_na s then CNA
  else match parse_int64 s with
       | Some z => CInt z
       | None =>
           if is_float_literal s then CFloat
           else match parse_bool s with
                | Some b => CBool b
                | None => CText
                end
       end.

Inductive dtype : Type := Int64 | Float64 | BoolType | Object.

Definition is_CNA (c : token_class) : bool :=
  match c with CNA => true | _ => false end.
Definition is_CInt (c : token_class) : bool :=
  match c with CInt _ => true | _ => false end.
Definition is_numeric (c : token_class) : bool :=
  match c with CInt _ | CFloat => true | _ => false end.
Definition is_CBool (c : token_class) : bool :=
  match c with CBool _ => true | _ => false end.

(** The type of a column, from the texts of its cells: integers when
    every cell is an integer literal; floats when every cell that is not
    missing is a number; booleans; otherwise text. *)
Definition column_dtype (cells : list string) : dtype :=
  let cls := map classify cells in
  let present := filter (fun c => negb (is_CNA c)) cls in
  if forallb is_CInt present
  then (if existsb is_CNA cls then Float64 else Int64)
  else if forallb is_numeric present then Float64
  else if forallb is_CBool present then BoolType
  else Object.

Definition convert (dt : dtype) (s : string) : value :=
  match classify s, dt with
  | CNA, _ => VNaN
  | CInt z, Int64 => VInt z
  | CBool b, BoolType => VBool b
  | _, Float64 => VFloat s
  | _, _ => VStr s
  end.

Definition column_cells (j : nat) (data : list (list string)) : list string :=
  map (fun r => nth j r EmptyString) data.

Definition convert_row (dts : list dtype) (r : list string) : list value :=
  map (fun p => convert (fst p) (snd p)) (combine dts r).

(** [pd.read_csv(file)]: the first line is the header; the names are
    taken as they are (the renaming of repeated or empty names is left
    out). *)
Definition read_csv (file : string) : result DataFrame :=
  ls <- tokenize file ;;
  match ls with
  | [] => Raise EmptyDataError
  | header :: data =>
      data' <- shape (List.length header) data ;;
      let dts := map (fun j => column_dtype (column_cells j data'))
                     (seq 0 (List.length header)) in
      Ok (mkDataFrame header (map (convert_row dts) data'))
  end.

(** [load_csv(file)] (app.py, lines 43-45) *)
Definition load_csv (file : string) : result DataFrame := read_csv file.

(** The load section of the script (app.py, lines 114-120): the uploaded
    file or the sample, then the filter. *)
Definition load_data (G : RNG) (s : rng_state G) (upload_file : option string)
  (filter_category : list string) : result DataFrame :=
  df_sales <- match upload_file with
              | Some file => load_csv file
              | None => Ok (fst (generate_sample_data G s))
              end ;;
  apply_filter filter_category df_sales.

(** ** Sales records, the rows of the data model *)

Record SalesRecord : Type := mkSale {
  product_id : Z;
  product_name : string;
  category : string;
  units : Z;
  sale_date : date
}.

Definition row_of (r : SalesRecord) : list value :=
  [VInt (product_id r); VStr (product_name r); VStr (category r);
   VInt (units r); VDate (sale_date r)].

Definition frame_of (t : list SalesRecord) : DataFrame :=
  mkDataFrame schema (map row_of t).

Fixpoint forall_chars (p : ascii -> bool) (s : string) : bool :=
  match s with
  | EmptyString => true
  | String c s' => p c && forall_chars p s'
  end.

(** The characters of the text of an integer or of a date. *)
Definition is_digit_or_dash (c : ascii) : bool :=
  is_digit c || Ascii.eqb c "-".

(** The texts the round trip is stated for: no carriage return (the
    writer does not quote it and the reader ends the line at it). *)
Fixpoint has_cr (s : string) : bool :=
  match s with
  | EmptyString => false
  | String c s' => Ascii.eqb c CR || has_cr s'
  end.

(** A line the reader does not skip: its first field is not empty and
    does not start with a blank. *)
Definition starts_visible (s : string) : bool :=
  match s with
  | EmptyString => false
  | String c _ => negb (is_blank c)
  end.

Definition line_ok (l : list string) : Prop :=
  match l with
  | [] => False
  | f :: _ => starts_visible f = true /\ Forall (fun s => has_cr s = false) l
  end.

Definition in_int64 (z : Z) : Prop := (int64_min <= z <= int64_max)%Z.

(** A text field that comes back as it is: no carriage return, and not
    read as a missing value, a number or a boolean. *)
Definition text_kept (s : string) : Prop :=
  has_cr s = false /\ classify s = CText.

Definition record_ok (r : SalesRecord) : Prop :=
  in_int64 (product_id r) /\ in_int64 (units r) /\
  text_kept (product_name r) /\ text_kept (category r).

(** A row as it is read back: the date is the text of the date. *)
Definition reread_row (r : SalesRecord) : list value :=
  [VInt (product_id r); VStr (product_name r); VStr (category r);
   VInt (units r); VStr (isoformat (sale_date r))].

(** The texts of the cells of a record, as the writer formats them. *)
Definition row_text (r : SalesRecord) : list string :=
  map format_value (row_of r).

Definition two_sales : list SalesRecord :=
  [ mkSale 1 "Product 1" "Home" 23 (mkdate 2023 1 1);
    mkSale 2 "Product 2" "Sports" 17 (mkdate 2023 1 2) ].

(** A small linear congruential generator, as an instance of the
    generator interface (it is not numpy's Mersenne Twister). *)
Definition toy_next (s : Z) : Z := ((s * 1103515245 + 12345) mod 2147483648)%Z.

Definition toy_rng : RNG :=
  mkRNG Z
    (fun seed => seed)
    (fun s n => (Z.to_nat ((s / 65536) mod Z.of_nat n), toy_next s))
    (fun s lam => ((lam + (s / 65536) mod 7 - 3)%Z, toy_next s)).

(** Student's t with one degree of freedom is the Cauchy distribution:
    its quantile is [tan (pi (p - 1/2))] and its upper tail
    [1/2 - atan x / pi].  The instance serves at one degree of freedom
    (tables of two rows). *)
Definition t_one_df : TDist :=
  mkTDist (fun p _ => tan (PI * (p - 1 / 2)))
          (fun x _ => 1 / 2 - atan x / PI)%R.

(** ** The formulas of the specification, on real numbers

    [sample_mean] is the arithmetic mean, [sample_sd] the sample standard
    deviation with divisor [n - 1], [std_error] is [s / sqrt n]. *)

Definition real_sum (rs : list R) : R := fold_right Rplus 0%R rs.

Definition sample_mean (xs : list Z) : R :=
  (real_sum (map IZR xs) / INR (List.length xs))%R.

Definition sample_sd (xs : list Z) : R :=
  sqrt (real_sum (map (fun x => (IZR x - sample_mean xs) * (IZR x - sample_mean xs))%R xs)
        / (INR (List.length xs) - 1)).

Definition std_error (xs : list Z) : R :=
  (sample_sd xs / sqrt (INR (List.length xs)))%R.

(** ** Small tables and files for the examples *)

Definition tiny_frame : DataFrame :=
  mkDataFrame schema
    [ sample_row 1 "Product 1" "Home" 20 (mkdate 2023 1 1);
      sample_row 2 "Product 2" "Sports" 25 (mkdate 2023 1 2);
      sample_row 3 "Product 3" "Home" 20 (mkdate 2023 1 3) ].

Definition mode_frame : DataFrame :=
  mkDataFrame ["units_sold"]
    [[VInt 20]; [VInt 20]; [VInt 20]; [VInt 25]; [VInt 25]; [VInt 30]].

Definition pair_frame (a b : Z) : DataFrame :=
  mkDataFrame ["category"; "units_sold"]
    [[VStr "Home"; VInt a]; [VStr "Sports"; VInt b]].

Definition single_frame (a : Z) : DataFrame :=
  mkDataFrame ["category"; "units_sold"] [[VStr "Home"; VInt a]].



(** The head of a list bounds its elements from below. *)
Definition head_least (l : list Z) : Prop :=
  match l with
  | [] => True
  | m :: _ => forall y, In y l -> (m <= y)%Z
  end.

(** The value at position [p/4] of the sorted values, by linear
    interpolation between the two neighbours. *)
Definition interpolate (s : list Z) (p : nat) : R :=
  let lov := nth (p / 4) s 0%Z in
  let hiv := nth (S (p / 4)) s lov in
  (IZR lov + IZR (hiv - lov) * (INR (p mod 4) / 4))%R.

(** ** The totals of the bar plot (app.py, line 88)

    [df.groupby('category')['units_sold'].sum().reset_index()] on a table
    of sales records: one row for each category that occurs, in the
    ascending order of the category texts, with the sum of the
    [units_sold] of the rows of that category. *)

(** The place of a key among the sorted keys seen so far. *)
Fixpoint insert_key (k : string) (ks : list string) : list string :=
  match ks with
  | [] => [k]
  | h :: rest =>
      match String.compare k h with
      | Lt => k :: ks
      | Eq => ks
      | Gt => h :: insert_key k rest
      end
  end.

(** The group keys: the distinct values, sorted. *)
Definition group_keys (keys : list string) : list string :=
  fold_right insert_key [] keys.

(** The sum of the values of the rows with key [k]. *)
Definition group_sum (keys : list string) (vals : list Z) (k : string) : Z :=
  zsum (map snd (filter (fun p => String.eqb (fst p) k) (combine keys vals))).

Definition groupby_sum (keys : list string) (vals : list Z)
  : list (string * Z) :=
  map (fun k => (k, group_sum keys vals k)) (group_keys keys).

(** [category_stats] of [plot_barplot], the table given to the plot. *)
Definition category_stats (t : list SalesRecord) : DataFrame :=
  mkDataFrame ["category"; "units_sold"]
    (map (fun p => [VStr (fst p); VInt (snd p)])
       (groupby_sum (map category t) (map units t))).

(** The texts in strictly ascending order. *)
Definition str_lt (a b : string) : Prop := String.compare a b = Lt.

(** The rows of the sample as sales records: the columns read side by
    side, as [zip_rows] reads them. *)
Fixpoint zip_records (ids : list nat) (names cats : list string)
  (units : list Z) (dates : list date) : list SalesRecord :=
  match ids, names, cats, units, dates with
  | i :: ids', n :: names', c :: cats', u :: units', d :: dates' =>
      mkSale (Z.of_nat i) n c u d :: zip_records ids' names' cats' units' dates'
  | _, _, _, _, _ => []
  end.

(** A line as the writer ends it where the line terminator is a carriage
    return and a line feed ([os.linesep] on Windows). *)
Definition writerow_crlf (fs : list string) : string :=
  match fs with
  | [EmptyString] =>
      String quote_char (String quote_char (String CR (String LF EmptyString)))
  | _ => (join_fields (map render_field fs)
          ++ String CR (String LF EmptyString))%string
  end.

(** * Properties *)

(** ** Results *)

Lemma bind_ok {A B : Type} (r : result A) (k : A -> result B) (b : B) :
  bind r k = Ok b -> exists a, r = Ok a /\ k a = Ok b.
Proof.
  destruct r as [a|e]; simpl; intros H; [eauto | discriminate].
Qed.

(** ** Column lookup and masks *)

Lemma index_of_In (name : string) (names : list string) :
  In name names -> exists i, index_of name names = Some i.
Proof.
  induction names as [|n rest IH]; simpl; [tauto|].
  intros [->|Hin].
  - rewrite String.eqb_refl; eauto.
  - destruct (String.eqb name n); [eauto|].
    destruct (IH Hin) as [i ->]; simpl; eauto.
Qed.

Lemma index_of_not_In (name : string) (names : list string) :
  ~ In name names -> index_of name names = None.
Proof.
  induction names as [|n rest IH]; simpl; [reflexivity|].
  intros Hn. destruct (String.eqb_spec name n) as [->|_]; [tauto|].
  rewrite IH; tauto.
Qed.

Lemma select_map_filter {A B : Type} (p : B -> bool) (f : A -> B)
  (l : list A) :
  select (map p (map f l)) l = filter (fun x => p (f x)) l.
Proof.
  induction l as [|x l IH]; simpl; [reflexivity|].
  rewrite IH. reflexivity.
Qed.

Lemma subseq_filter {A : Type} (p : A -> bool) (l : list A) :
  subseq (filter p l) l.
Proof.
  induction l as [|x l IH]; simpl.
  - constructor.
  - destruct (p x); constructor; exact IH.
Qed.

Lemma subseq_In {A : Type} (l1 l2 : list A) :
  subseq l1 l2 -> forall x, In x l1 -> In x l2.
Proof.
  induction 1 as [|y l1 l2 _ IH|y l1 l2 _ IH]; simpl; intros z Hz.
  - exact Hz.
  - right; apply IH; exact Hz.
  - destruct Hz as [->|Hz]; [left; reflexivity | right; apply IH; exact Hz].
Qed.

Lemma filter_idem {A : Type} (p : A -> bool) (l : list A) :
  filter p (filter p l) = filter p l.
Proof.
  induction l as [|x l IH]; simpl; [reflexivity|].
  destruct (p x) eqn:E; simpl; rewrite ?E, IH; reflexivity.
Qed.

Lemma isin_cell_spec (values : list string) (v : value) :
  isin_cell values v = true <-> exists s, v = VStr s /\ In s values.
Proof.
  destruct v; simpl;
    try (split; [discriminate | intros (s0 & Hs & _); discriminate]).
  rewrite existsb_exists. split.
  - intros (x & Hx & Heq). apply String.eqb_eq in Heq. subst x. eauto.
  - intros (s0 & [= <-] & Hin). exists s; split; [exact Hin|].
    apply String.eqb_refl.
Qed.

(** The filter with a selection, once the [category] column is known to
    exist: the rows are those of [List.filter] on the category cell. *)
Lemma apply_filter_rows (f : string) (F : list string) (df : DataFrame) :
  In "category" (columns df) ->
  apply_filter (f :: F) df =
  Ok (mkDataFrame (columns df)
        (filter (fun r => isin_cell (f :: F) (category_of df r)) (rows df))).
Proof.
  intros Hin. unfold apply_filter, getitem, category_of.
  destruct (index_of_In _ _ Hin) as [i Hi]. rewrite Hi. simpl bind.
  unfold getitem_mask, isin. rewrite select_map_filter. reflexivity.
Qed.

Lemma apply_filter_inv (f : string) (F : list string) (df df' : DataFrame) :
  apply_filter (f :: F) df = Ok df' ->
  In "category" (columns df) /\
  df' = mkDataFrame (columns df)
          (filter (fun r => isin_cell (f :: F) (category_of df r)) (rows df)).
Proof.
  intros H.
  assert (Hin : In "category" (columns df)).
  { destruct (in_dec string_dec "category" (columns df)) as [Hin|Hn];
      [exact Hin|].
    unfold apply_filter, getitem in H.
    rewrite (index_of_not_In _ _ Hn) in H. discriminate. }
  split; [exact Hin|].
  rewrite (apply_filter_rows f F df Hin) in H. congruence.
Qed.

(** C7. For every table that has a [category] column and every list of
    categories [F]: when [F] is empty the filter returns the table as it
    is; when [F] is not empty it returns the same columns with exactly the
    rows whose category cell is a member of [F], in their original
    relative order; and filtering the filtered table again by [F] changes
    nothing. *)
Theorem filter_retains_members_in_order (df : DataFrame) (F : list string) :
  In "category" (columns df) ->
  (F = [] -> apply_filter F df = Ok df) /\
  (F <> [] ->
   exists df',
     apply_filter F df = Ok df' /\
     columns df' = columns df /\
     rows df' = filter (fun r => isin_cell F (category_of df r)) (rows df) /\
     subseq (rows df') (rows df) /\
     (forall r, In r (rows df') <->
                In r (rows df) /\
                exists s, category_of df r = VStr s /\ In s F)) /\
  (forall df', apply_filter F df = Ok df' -> apply_filter F df' = Ok df').
Proof.
  intros Hin. split; [|split].
  - intros ->. reflexivity.
  - intros HF. destruct F as [|f F]; [congruence|].
    eexists. split; [apply apply_filter_rows; exact Hin|].
    simpl. split; [reflexivity|]. split; [reflexivity|].
    split; [apply subseq_filter|].
    intros r. rewrite filter_In, isin_cell_spec. reflexivity.
  - intros df' H. destruct F as [|f F]; [reflexivity|].
    rewrite (apply_filter_rows f F df Hin) in H. injection H as <-.
    rewrite apply_filter_rows by exact Hin.
    unfold category_of. simpl. rewrite filter_idem. reflexivity.
Qed.

Lemma filter_retains_members_in_order_witness :
  In "category" (columns tiny_frame) /\
  apply_filter ["Home"] tiny_frame =
  Ok (mkDataFrame schema
        [ sample_row 1 "Product 1" "Home" 20 (mkdate 2023 1 1);
          sample_row 3 "Product 3" "Home" 20 (mkdate 2023 1 3) ]) /\
  (forall df', apply_filter ["Home"] tiny_frame = Ok df' ->
               apply_filter ["Home"] df' = Ok df').
Proof.
  assert (Hin : In "category" (columns tiny_frame))
    by (simpl; tauto).
  split; [exact Hin|].
  split; [reflexivity|].
  exact (proj2 (proj2 (filter_retains_members_in_order tiny_frame ["Home"] Hin))).
Defined.

(** C10. For every table and every non-empty list of categories, when the
    filter returns a table: its columns are those of the original, every
    row it holds is a whole row of the original (all cells, so all of
    [product_id], [product_name], [category], [units_sold] and
    [sale_date], unchanged), in the original relative order; and on the
    store the statement only allocates: every frame that was in the heap,
    the original table included, is still there unchanged, and the
    variable is bound to the new frame. *)
Theorem filter_keeps_rows_whole (df df' : DataFrame) (F : list string) :
  F <> [] ->
  apply_filter F df = Ok df' ->
  columns df' = columns df /\
  subseq (rows df') (rows df) /\
  (forall r, In r (rows df') -> In r (rows df)) /\
  (forall h,
     exists st',
       filter_stmt F (mkStore (h ++ [df]) (List.length h)) = Ok st' /\
       nth_error (heap st') (df_sales_ref st') = Some df' /\
       nth_error (heap st') (List.length h) = Some df /\
       (forall a d, nth_error (h ++ [df]) a = Some d ->
                    nth_error (heap st') a = Some d)).
Proof.
  intros HF H. destruct F as [|f F]; [congruence|].
  destruct (apply_filter_inv f F df df' H) as [Hin ->]. simpl.
  split; [reflexivity|].
  split; [apply subseq_filter|].
  split; [intros r Hr; apply filter_In in Hr; tauto|].
  intros h. unfold filter_stmt. simpl heap. simpl df_sales_ref.
  assert (Hnth : nth_error (h ++ [df]) (List.length h) = Some df).
  { rewrite nth_error_app2 by lia. rewrite Nat.sub_diag. reflexivity. }
  rewrite Hnth. cbv beta iota.
  unfold apply_filter in H. rewrite H. simpl bind.
  eexists. split; [reflexivity|].
  simpl. split; [|split].
  - rewrite nth_error_app2 by lia. rewrite Nat.sub_diag. reflexivity.
  - rewrite nth_error_app1; [exact Hnth|].
    rewrite length_app. simpl. lia.
  - intros a d Ha. rewrite nth_error_app1; [exact Ha|].
    apply nth_error_Some. congruence.
Qed.

Lemma filter_keeps_rows_whole_witness :
  columns (mkDataFrame schema
             [sample_row 2 "Product 2" "Sports" 25 (mkdate 2023 1 2)])
  = columns tiny_frame /\
  subseq [sample_row 2 "Product 2" "Sports" 25 (mkdate 2023 1 2)]
         (rows tiny_frame).
Proof.
  assert (HF : ["Sports"; "Clothing"] <> @nil string) by discriminate.
  assert (H : apply_filter ["Sports"; "Clothing"] tiny_frame =
              Ok (mkDataFrame schema
                    [sample_row 2 "Product 2" "Sports" 25 (mkdate 2023 1 2)]))
    by reflexivity.
  destruct (filter_keeps_rows_whole _ _ _ HF H) as (Hc & Hs & _).
  split; [exact Hc | exact Hs].
Defined.

(** ** Sorting and counting *)

Lemma insert_In (x y : Z) (l : list Z) :
  In y (insert x l) <-> y = x \/ In y l.
Proof.
  induction l as [|z l IH]; simpl.
  - intuition.
  - destruct (x <=? z)%Z; simpl; rewrite ?IH; intuition.
Qed.

Lemma sort_In (y : Z) (l : list Z) : In y (sort l) <-> In y l.
Proof.
  induction l as [|x l IH]; simpl; [tauto|].
  rewrite insert_In, IH. intuition.
Qed.

Lemma insert_length (x : Z) (l : list Z) :
  List.length (insert x l) = S (List.length l).
Proof.
  induction l as [|z l IH]; simpl; [reflexivity|].
  destruct (x <=? z)%Z; simpl; rewrite ?IH; reflexivity.
Qed.

Lemma sort_length (l : list Z) : List.length (sort l) = List.length l.
Proof.
  induction l as [|x l IH]; simpl; [reflexivity|].
  rewrite insert_length, IH. reflexivity.
Qed.

Lemma insert_head_least (x : Z) (l : list Z) :
  head_least l -> head_least (insert x l).
Proof.
  destruct l as [|z l]; simpl.
  - intros _ y [<-|[]]. lia.
  - intros H. destruct (Z.leb_spec x z) as [Hle|Hlt]; simpl.
    + intros y [<-|Hy]; [lia|]. specialize (H y Hy). lia.
    + intros y [<-|Hy]; [lia|]. apply insert_In in Hy.
      destruct Hy as [->|Hy]; [lia|]. apply H. right; exact Hy.
Qed.

Lemma sort_head_least (l : list Z) : head_least (sort l).
Proof.
  induction l as [|x l IH]; simpl; [exact I|].
  apply insert_head_least; exact IH.
Qed.

Lemma fold_max_ge (c : Z -> nat) (l : list Z) (v : Z) :
  In v l -> (c v <= fold_right (fun v m => Nat.max (c v) m) O l)%nat.
Proof.
  induction l as [|x l IH]; simpl; [tauto|].
  intros [->|Hin]; [lia|]. specialize (IH Hin). lia.
Qed.

Lemma fold_max_attained (c : Z -> nat) (l : list Z) :
  l <> [] ->
  exists v, In v l /\ c v = fold_right (fun v m => Nat.max (c v) m) O l.
Proof.
  induction l as [|x l IH]; [congruence|]. intros _.
  destruct l as [|y l].
  - exists x. simpl. split; [tauto | lia].
  - destruct IH as (v & Hv & Hc); [discriminate|].
    cbn [fold_right] in *.
    destruct (Nat.le_ge_cases (c x) (c v)) as [Hle|Hge].
    + exists v. split; [right; exact Hv | lia].
    + exists x. split; [left; reflexivity | lia].
Qed.

Lemma max_count_ge (xs : list Z) (v : Z) :
  (count_occ Z.eq_dec xs v <= max_count xs)%nat.
Proof.
  destruct (in_dec Z.eq_dec v xs) as [Hin|Hn].
  - apply (fold_max_ge (count_occ Z.eq_dec xs)); exact Hin.
  - apply count_occ_not_In with (eq_dec := Z.eq_dec) in Hn. lia.
Qed.

Lemma max_count_attained (xs : list Z) :
  xs <> [] -> exists v, In v xs /\ count_occ Z.eq_dec xs v = max_count xs.
Proof.
  intros H. exact (fold_max_attained (count_occ Z.eq_dec xs) xs H).
Qed.

Lemma series_mode_In (xs : list Z) (v : Z) :
  In v (series_mode xs) <->
  In v xs /\ count_occ Z.eq_dec xs v = max_count xs.
Proof.
  unfold series_mode. rewrite sort_In, filter_In, nodup_In, Nat.eqb_eq.
  reflexivity.
Qed.

(** C2. For every table whose [units_sold] column is the integer series
    [xs], the calculator returns; when the table has rows the mode it
    returns is a value [m] of the series that no value occurs more often
    than, and [m] is at most every other value with that property (the
    smallest of the most frequent values); when the table has no row the
    mode is NaN; on [20,20,20,25,25,30] the mode is 20. *)
Theorem mode_is_smallest_most_frequent (df : DataFrame) (xs : list Z) :
  units_sold df = Ok xs ->
  (exists d mean_val median_val,
     calculate_descriptive_stats df =
     Ok (d, mean_val, median_val, mode_val_of xs)) /\
  (xs <> [] ->
   exists m,
     mode_val_of xs = of_Z m /\
     In m xs /\
     (forall v, (count_occ Z.eq_dec xs v <= count_occ Z.eq_dec xs m)%nat) /\
     (forall v,
        In v xs ->
        (forall w, (count_occ Z.eq_dec xs w <= count_occ Z.eq_dec xs v)%nat) ->
        (m <= v)%Z)) /\
  (xs = [] -> mode_val_of xs = NaN) /\
  mode_val_of [20; 20; 20; 25; 25; 30]%Z = of_Z 20.
Proof.
  intros Hu. split; [|split; [|split]].
  - unfold calculate_descriptive_stats. rewrite Hu. simpl.
    unfold descriptive_stats_of. eauto.
  - intros Hne.
    destruct (max_count_attained xs Hne) as (v0 & Hv0 & Hc0).
    assert (Hv0m : In v0 (series_mode xs)) by (apply series_mode_In; tauto).
    unfold mode_val_of.
    pose proof (sort_head_least
                  (filter (fun v => (count_occ Z.eq_dec xs v =? max_count xs)%nat)
                          (nodup Z.eq_dec xs))) as Hleast.
    fold (series_mode xs) in Hleast.
    destruct (series_mode xs) as [|m rest] eqn:Hm; [destruct Hv0m|].
    assert (Hmin : In m (series_mode xs)) by (rewrite Hm; left; reflexivity).
    apply series_mode_In in Hmin. destruct Hmin as [Hmx Hmc].
    exists m. split; [reflexivity|]. split; [exact Hmx|]. split.
    + intros v. rewrite Hmc. apply max_count_ge.
    + intros v Hv Hmax.
      assert (Hvm : In v (series_mode xs)).
      { apply series_mode_In. split; [exact Hv|].
        pose proof (max_count_ge xs v). specialize (Hmax m). lia. }
      rewrite Hm in Hvm. exact (Hleast v Hvm).
  - intros ->. reflexivity.
  - reflexivity.
Qed.

Lemma mode_is_smallest_most_frequent_witness :
  units_sold mode_frame = Ok [20; 20; 20; 25; 25; 30]%Z /\
  mode_val_of [20; 20; 20; 25; 25; 30]%Z = of_Z 20.
Proof.
  assert (H : units_sold mode_frame = Ok [20; 20; 20; 25; 25; 30]%Z)
    by reflexivity.
  split; [exact H|].
  exact (proj2 (proj2 (proj2 (mode_is_smallest_most_frequent mode_frame _ H)))).
Defined.

(** ** Arithmetic of the statistics *)

Lemma fold_left_Zadd (xs : list Z) (a : Z) :
  fold_left Z.add xs a = (a + fold_right Z.add 0 xs)%Z.
Proof.
  revert a. induction xs as [|x xs IH]; intros a; simpl; [lia|].
  rewrite IH. lia.
Qed.

Lemma zsum_IZR (xs : list Z) : IZR (zsum xs) = real_sum (map IZR xs).
Proof.
  unfold zsum. rewrite fold_left_Zadd, Z.add_0_l.
  induction xs as [|x xs IH]; simpl; [reflexivity|].
  rewrite plus_IZR, IH. reflexivity.
Qed.

Lemma INR_length_pos {A : Type} (xs : list A) :
  xs <> [] -> (0 < INR (List.length xs))%R.
Proof.
  intros H. apply lt_0_INR. destruct xs; [congruence | simpl; lia].
Qed.

Lemma fdiv_Fin (a b : R) : b <> 0%R -> fdiv (Fin a) (Fin b) = Fin (a / b).
Proof.
  intros Hb. unfold fdiv. destruct (Req_dec_T b 0); [contradiction|reflexivity].
Qed.

Lemma fdiv_zero_zero : fdiv (Fin 0) (Fin 0) = NaN.
Proof.
  unfold fdiv. destruct (Req_dec_T 0 0) as [_|H]; [|exfalso; apply H; reflexivity].
  unfold inf_of_sign. destruct (total_order_T 0 0) as [[H|_]|H];
    [exfalso; lra | reflexivity | exfalso; lra].
Qed.

Lemma fsqrt_Fin (r : R) : (0 <= r)%R -> fsqrt (Fin r) = Fin (sqrt r).
Proof.
  intros Hr. unfold fsqrt. destruct (Rlt_dec r 0); [exfalso; lra | reflexivity].
Qed.

Lemma series_mean_Fin (xs : list Z) :
  xs <> [] -> series_mean xs = Fin (sample_mean xs).
Proof.
  intros H. unfold series_mean, sample_mean, of_Z, of_nat.
  pose proof (INR_length_pos xs H).
  rewrite fdiv_Fin by lra. rewrite zsum_IZR. reflexivity.
Qed.

Lemma np_mean_series_mean (xs : list Z) : np_mean xs = series_mean xs.
Proof. reflexivity. Qed.

Lemma sum_sq_dev_acc (m : R) (xs : list Z) (a : R) :
  fold_left (fun acc x => fadd acc (fmul (fsub (of_Z x) (Fin m))
                                         (fsub (of_Z x) (Fin m))))
            xs (Fin a) =
  Fin (a + real_sum (map (fun x => (IZR x - m) * (IZR x - m))%R xs)).
Proof.
  unfold of_Z.
  revert a. induction xs as [|x xs IH]; intros a; simpl.
  - f_equal. lra.
  - rewrite IH. f_equal. unfold Rminus. lra.
Qed.

Lemma sum_sq_dev_Fin (m : R) (xs : list Z) :
  sum_sq_dev (Fin m) xs =
  Fin (real_sum (map (fun x => (IZR x - m) * (IZR x - m))%R xs)).
Proof.
  unfold sum_sq_dev. rewrite sum_sq_dev_acc. f_equal. lra.
Qed.

Lemma sq_sum_nonneg (m : R) (xs : list Z) :
  (0 <= real_sum (map (fun x => (IZR x - m) * (IZR x - m))%R xs))%R.
Proof.
  induction xs as [|x xs IH]; simpl; [lra|].
  pose proof (Rle_0_sqr (IZR x - m)) as Hs. unfold Rsqr in Hs. lra.
Qed.

Lemma np_var_Fin (xs : list Z) :
  (2 <= List.length xs)%nat ->
  np_var xs 1 =
  Fin (real_sum (map (fun x => (IZR x - sample_mean xs) * (IZR x - sample_mean xs))%R xs)
       / (INR (List.length xs) - 1)).
Proof.
  intros Hn. unfold np_var. rewrite np_mean_series_mean.
  rewrite series_mean_Fin by (destruct xs; [simpl in Hn; lia | discriminate]).
  rewrite sum_sq_dev_Fin. unfold of_nat.
  rewrite minus_INR by lia. simpl INR.
  assert (2 <= INR (List.length xs))%R.
  { change 2%R with (INR 2). apply le_INR. exact Hn. }
  rewrite fdiv_Fin by lra. reflexivity.
Qed.

Lemma var_nonneg (xs : list Z) :
  (2 <= List.length xs)%nat ->
  (0 <= real_sum (map (fun x => (IZR x - sample_mean xs) * (IZR x - sample_mean xs))%R xs)
        / (INR (List.length xs) - 1))%R.
Proof.
  intros Hn.
  assert (2 <= INR (List.length xs))%R.
  { change 2%R with (INR 2). apply le_INR. exact Hn. }
  apply Rmult_le_pos; [apply sq_sum_nonneg|].
  apply Rlt_le, Rinv_0_lt_compat. lra.
Qed.

Lemma stats_sem_Fin (xs : list Z) :
  (2 <= List.length xs)%nat -> stats_sem xs 1 = Fin (std_error xs).
Proof.
  intros Hn. unfold stats_sem. rewrite np_var_Fin by exact Hn.
  rewrite fsqrt_Fin by (apply var_nonneg; exact Hn).
  unfold of_nat.
  assert (Hpos : (0 < INR (List.length xs))%R) by (apply lt_0_INR; lia).
  rewrite fsqrt_Fin by lra.
  pose proof (sqrt_lt_R0 _ Hpos).
  rewrite fdiv_Fin by lra. reflexivity.
Qed.

Lemma std_error_nonneg (xs : list Z) :
  (2 <= List.length xs)%nat -> (0 <= std_error xs)%R.
Proof.
  intros Hn. unfold std_error, sample_sd.
  assert (Hpos : (0 < INR (List.length xs))%R) by (apply lt_0_INR; lia).
  apply Rmult_le_pos; [apply sqrt_pos|].
  apply Rlt_le, Rinv_0_lt_compat, sqrt_lt_R0. exact Hpos.
Qed.

Lemma stats_t_ppf_Fin (T : TDist) (q : R) (df : Z) :
  (0 < q < 1)%R -> (0 < df)%Z ->
  stats_t_ppf T q df = Fin (t_quantile T q df).
Proof.
  intros [Hq0 Hq1] Hdf. unfold stats_t_ppf.
  destruct (Z.leb_spec df 0); [lia|].
  destruct (total_order_T q 0) as [[H0|H0]|H0]; try (exfalso; lra).
  destruct (total_order_T q 1) as [[H1|H1]|H1]; try (exfalso; lra).
  reflexivity.
Qed.

(** The interval of the calculator, for at least two rows and a level in
    (0,1). *)
Lemma confidence_interval_Fin (T : TDist) (xs : list Z) (c mu : R) :
  (2 <= List.length xs)%nat -> (0 < c < 1)%R ->
  fst (inferential_stats_of T xs c mu) =
  (Fin (sample_mean xs
        - t_quantile T ((1 + c) / 2) (Z.of_nat (List.length xs) - 1)
          * std_error xs),
   Fin (sample_mean xs
        + t_quantile T ((1 + c) / 2) (Z.of_nat (List.length xs) - 1)
          * std_error xs)).
Proof.
  intros Hn Hc. unfold inferential_stats_of. cbv zeta. cbn [fst].
  rewrite series_mean_Fin by (destruct xs; [simpl in Hn; lia | discriminate]).
  rewrite stats_sem_Fin by exact Hn.
  rewrite stats_t_ppf_Fin by (try lra; lia).
  simpl. unfold Rminus. reflexivity.
Qed.

(** C3. For every table whose [units_sold] column is a series of n > 1
    integers and every confidence level in (0,1), the calculator returns
    and its interval is (mean - t* SE, mean + t* SE), where mean is the
    arithmetic mean, SE is s / sqrt n with s the sample standard deviation
    of divisor n - 1, and t* is the quantile of Student's t at probability
    (1 + level) / 2 with n - 1 degrees of freedom. *)
Theorem confidence_interval_formula (T : TDist) (df : DataFrame)
  (xs : list Z) (confidence_level test_mean : R) :
  units_sold df = Ok xs ->
  (1 < List.length xs)%nat ->
  (0 < confidence_level < 1)%R ->
  let n := List.length xs in
  let t_star := t_quantile T ((1 + confidence_level) / 2) (Z.of_nat n - 1) in
  let se := (sample_sd xs / sqrt (INR n))%R in
  exists ttest,
    calculate_inferential_stats T df confidence_level test_mean =
    Ok ((Fin (sample_mean xs - t_star * se),
         Fin (sample_mean xs + t_star * se)), ttest).
Proof.
  intros Hu Hn Hc n t_star se.
  unfold calculate_inferential_stats. rewrite Hu. simpl bind.
  pose proof (confidence_interval_Fin T xs confidence_level test_mean Hn Hc)
    as Hci.
  destruct (inferential_stats_of T xs confidence_level test_mean)
    as [ci ttest].
  simpl in Hci. subst ci. exists ttest. reflexivity.
Qed.

Lemma confidence_interval_formula_witness :
  exists ttest,
    calculate_inferential_stats t_one_df (pair_frame 18 22) (95 / 100) 20 =
    Ok ((Fin (sample_mean [18; 22]%Z
              - t_quantile t_one_df ((1 + 95 / 100) / 2) (Z.of_nat 2 - 1)
                * (sample_sd [18; 22]%Z / sqrt (INR 2))),
         Fin (sample_mean [18; 22]%Z
              + t_quantile t_one_df ((1 + 95 / 100) / 2) (Z.of_nat 2 - 1)
                * (sample_sd [18; 22]%Z / sqrt (INR 2)))), ttest).
Proof.
  assert (Hu : units_sold (pair_frame 18 22) = Ok [18; 22]%Z) by reflexivity.
  assert (Hn : (1 < List.length [18; 22]%Z)%nat) by (simpl; lia).
  assert (Hc : (0 < 95 / 100 < 1)%R) by lra.
  exact (confidence_interval_formula t_one_df (pair_frame 18 22) [18; 22]%Z
           (95 / 100) 20 Hu Hn Hc).
Defined.

(** ** Order on the statistics *)

Lemma fle_Fin (a b : R) : fle (Fin a) (Fin b) <-> (a <= b)%R.
Proof. reflexivity. Qed.

Lemma width_Fin (m e : R) :
  fsub (Fin (m + e)) (Fin (m - e)) = Fin (2 * e).
Proof. unfold fsub. simpl. f_equal. lra. Qed.

(** C4. For every table whose [units_sold] column is a series of n > 1
    integers, with the quantile of Student's t non-negative from
    probability 1/2 on and non-decreasing in the probability: at every
    confidence level in (0.80, 0.99) the calculator returns an interval
    with lower <= mean <= upper, and for two such levels c1 <= c2 the
    width upper - lower at c1 is at most the width at c2. *)
Theorem interval_brackets_mean_and_widens (T : TDist) (df : DataFrame)
  (xs : list Z) (test_mean : R) :
  (forall p d, (1 / 2 <= p < 1)%R -> (0 < d)%Z ->
               (0 <= t_quantile T p d)%R) ->
  (forall p q d, (1 / 2 <= p <= q)%R -> (q < 1)%R -> (0 < d)%Z ->
                 (t_quantile T p d <= t_quantile T q d)%R) ->
  units_sold df = Ok xs ->
  (1 < List.length xs)%nat ->
  (forall c, (80 / 100 < c < 99 / 100)%R ->
     exists lower upper ttest,
       calculate_inferential_stats T df c test_mean =
       Ok ((lower, upper), ttest) /\
       fle lower (series_mean xs) /\ fle (series_mean xs) upper) /\
  (forall c1 c2 lower1 upper1 ttest1 lower2 upper2 ttest2,
     (80 / 100 < c1)%R -> (c1 <= c2)%R -> (c2 < 99 / 100)%R ->
     calculate_inferential_stats T df c1 test_mean =
     Ok ((lower1, upper1), ttest1) ->
     calculate_inferential_stats T df c2 test_mean =
     Ok ((lower2, upper2), ttest2) ->
     fle (fsub upper1 lower1) (fsub upper2 lower2)).
Proof.
  intros Hpos Hmono Hu Hn.
  assert (Hne : xs <> []) by (destruct xs; [simpl in Hn; lia | discriminate]).
  assert (Hdf : (0 < Z.of_nat (List.length xs) - 1)%Z) by lia.
  pose proof (std_error_nonneg xs Hn) as Hse.
  assert (Hci : forall c, (80 / 100 < c < 99 / 100)%R ->
            calculate_inferential_stats T df c test_mean =
            Ok ((Fin (sample_mean xs
                      - t_quantile T ((1 + c) / 2)
                          (Z.of_nat (List.length xs) - 1) * std_error xs),
                 Fin (sample_mean xs
                      + t_quantile T ((1 + c) / 2)
                          (Z.of_nat (List.length xs) - 1) * std_error xs)),
                snd (inferential_stats_of T xs c test_mean))).
  { intros c Hc. unfold calculate_inferential_stats. rewrite Hu. simpl bind.
    rewrite (surjective_pairing (inferential_stats_of T xs c test_mean)) at 1.
    rewrite confidence_interval_Fin by (try exact Hn; lra). reflexivity. }
  split.
  - intros c Hc. do 3 eexists. split; [apply Hci; exact Hc|].
    rewrite series_mean_Fin by exact Hne.
    assert (Ht : (0 <= t_quantile T ((1 + c) / 2)
                        (Z.of_nat (List.length xs) - 1))%R)
      by (apply Hpos; [lra | exact Hdf]).
    pose proof (Rmult_le_pos _ _ Ht Hse) as Hm.
    split; apply fle_Fin; lra.
  - intros c1 c2 lower1 upper1 ttest1 lower2 upper2 ttest2 H1 H12 H2 E1 E2.
    rewrite Hci in E1 by lra. rewrite Hci in E2 by lra.
    injection E1 as <- <- _. injection E2 as <- <- _.
    rewrite !width_Fin. apply fle_Fin.
    assert (Ht : (t_quantile T ((1 + c1) / 2) (Z.of_nat (List.length xs) - 1)
                  <= t_quantile T ((1 + c2) / 2)
                       (Z.of_nat (List.length xs) - 1))%R)
      by (apply Hmono; [lra | lra | exact Hdf]).
    pose proof (Rmult_le_compat_r _ _ _ Hse Ht). lra.
Qed.

Lemma t_one_df_nonneg (p : R) (d : Z) :
  (1 / 2 <= p < 1)%R -> (0 < d)%Z -> (0 <= t_quantile t_one_df p d)%R.
Proof.
  intros [Hp1 Hp2] _. simpl.
  destruct (Req_dec_T p (1 / 2)) as [->|Hneq].
  - replace (PI * (1 / 2 - 1 / 2))%R with 0%R by lra. rewrite tan_0. lra.
  - apply Rlt_le, tan_gt_0.
    + apply Rmult_lt_0_compat; [apply PI_RGT_0 | lra].
    + pose proof PI_RGT_0. nra.
Qed.

Lemma t_one_df_mono (p q : R) (d : Z) :
  (1 / 2 <= p <= q)%R -> (q < 1)%R -> (0 < d)%Z ->
  (t_quantile t_one_df p d <= t_quantile t_one_df q d)%R.
Proof.
  intros [Hp Hpq] Hq _. simpl.
  destruct (Req_dec_T p q) as [->|Hneq]; [lra|].
  pose proof PI_RGT_0 as Hpi.
  apply Rlt_le, tan_increasing; nra.
Qed.

Lemma interval_brackets_mean_and_widens_witness :
  exists lower upper ttest,
    calculate_inferential_stats t_one_df (pair_frame 18 22) (95 / 100) 20 =
    Ok ((lower, upper), ttest) /\
    fle lower (series_mean [18; 22]%Z) /\
    fle (series_mean [18; 22]%Z) upper.
Proof.
  assert (Hu : units_sold (pair_frame 18 22) = Ok [18; 22]%Z) by reflexivity.
  assert (Hn : (1 < List.length [18; 22]%Z)%nat) by (simpl; lia).
  assert (Hc : (80 / 100 < 95 / 100 < 99 / 100)%R) by lra.
  exact (proj1 (interval_brackets_mean_and_widens t_one_df (pair_frame 18 22)
                  [18; 22]%Z 20 t_one_df_nonneg t_one_df_mono Hu Hn)
               (95 / 100)%R Hc).
Defined.

(** ** Degenerate samples *)

Lemma fdiv_zero_by_zero (a b : R) :
  a = 0%R -> b = 0%R -> fdiv (Fin a) (Fin b) = NaN.
Proof. intros -> ->. apply fdiv_zero_zero. Qed.

Lemma fdiv_NaN_r (x : fnum) : fdiv x NaN = NaN.
Proof. destruct x; reflexivity. Qed.

Lemma fmul_NaN_l (x : fnum) : fmul NaN x = NaN.
Proof. reflexivity. Qed.

Lemma fsub_NaN_r (x : fnum) : fsub x NaN = NaN.
Proof. destruct x; reflexivity. Qed.

Lemma fadd_NaN_r (x : fnum) : fadd x NaN = NaN.
Proof. destruct x; reflexivity. Qed.

Lemma stats_t_sf_NaN (T : TDist) (d : Z) : stats_t_sf T NaN d = NaN.
Proof. unfold stats_t_sf. destruct (d <=? 0)%Z; reflexivity. Qed.

Lemma stats_t_ppf_no_freedom (T : TDist) (q : R) (d : Z) :
  (d <= 0)%Z -> stats_t_ppf T q d = NaN.
Proof.
  intros H. unfold stats_t_ppf. destruct (Z.leb_spec d 0); [reflexivity | lia].
Qed.

Lemma np_mean_nil : np_mean [] = NaN.
Proof. unfold np_mean, of_Z, of_nat, zsum. simpl. apply fdiv_zero_zero. Qed.

Lemma np_mean_single (x : Z) : np_mean [x] = Fin (IZR x).
Proof.
  unfold np_mean, of_Z, of_nat, zsum. cbn [fold_left List.length].
  rewrite Z.add_0_l. rewrite fdiv_Fin by (simpl; lra).
  f_equal. simpl. field.
Qed.

(** With at most one value the variance of divisor n - 1 is 0/0. *)
Lemma np_var_short (xs : list Z) :
  (List.length xs <= 1)%nat -> np_var xs 1 = NaN.
Proof.
  intros Hn. destruct xs as [|x [|y xs]]; [| |simpl in Hn; lia].
  - unfold np_var. rewrite np_mean_nil. unfold sum_sq_dev, of_nat. simpl.
    apply fdiv_zero_zero.
  - unfold np_var. rewrite np_mean_single, sum_sq_dev_Fin.
    simpl. unfold of_nat. simpl.
    apply fdiv_zero_by_zero; [ring | reflexivity].
Qed.

Lemma stats_sem_short (xs : list Z) :
  (List.length xs <= 1)%nat -> stats_sem xs 1 = NaN.
Proof.
  intros Hn. unfold stats_sem. rewrite np_var_short by exact Hn. reflexivity.
Qed.

Lemma ttest_statistic_short (xs : list Z) (popmean : R) :
  (List.length xs <= 1)%nat -> ttest_statistic xs popmean = NaN.
Proof.
  intros Hn. unfold ttest_statistic. cbv zeta.
  rewrite np_var_short by exact Hn. simpl fdiv at 2.
  simpl fsqrt. apply fdiv_NaN_r.
Qed.

Lemma stats_ttest_1samp_NaN (T : TDist) (xs : list Z) (popmean : R) :
  ttest_statistic xs popmean = NaN ->
  stats_ttest_1samp T xs popmean = (NaN, NaN).
Proof.
  intros H. unfold stats_ttest_1samp. cbv zeta. rewrite H.
  simpl fabs. rewrite stats_t_sf_NaN. reflexivity.
Qed.

Lemma inferential_stats_short (T : TDist) (xs : list Z) (c mu : R) :
  (List.length xs <= 1)%nat ->
  inferential_stats_of T xs c mu = ((NaN, NaN), (NaN, NaN)).
Proof.
  intros Hn. unfold inferential_stats_of. cbv zeta.
  rewrite stats_t_ppf_no_freedom by lia.
  rewrite fmul_NaN_l, fsub_NaN_r, fadd_NaN_r.
  rewrite stats_ttest_1samp_NaN by (apply ttest_statistic_short; exact Hn).
  reflexivity.
Qed.

(** C8. For every table whose [units_sold] column is a series of at most
    one integer, both calculators return a result (no exception): the
    standard error, both bounds of the confidence interval, the
    t-statistic and the p-value are NaN, and the standard deviation of the
    summary is NaN; on the empty table the mean, the median and the mode
    are NaN as well, with every entry of the summary but the count. *)
Theorem degenerate_tables_yield_nan (T : TDist) (df : DataFrame)
  (xs : list Z) (confidence_level test_mean : R) :
  units_sold df = Ok xs ->
  (List.length xs <= 1)%nat ->
  calculate_inferential_stats T df confidence_level test_mean =
  Ok ((NaN, NaN), (NaN, NaN)) /\
  stats_sem xs 1 = NaN /\
  (exists d mean_val median_val mode_val,
     calculate_descriptive_stats df = Ok (d, mean_val, median_val, mode_val) /\
     d_std d = NaN /\
     (xs = [] ->
      mean_val = NaN /\ median_val = NaN /\ mode_val = NaN /\
      d_count d = O /\ d_mean d = NaN /\ d_min d = NaN /\ d_q25 d = NaN /\
      d_q50 d = NaN /\ d_q75 d = NaN /\ d_max d = NaN)).
Proof.
  intros Hu Hn. split; [|split].
  - unfold calculate_inferential_stats. rewrite Hu. simpl bind.
    rewrite inferential_stats_short by exact Hn. reflexivity.
  - apply stats_sem_short; exact Hn.
  - unfold calculate_descriptive_stats. rewrite Hu. simpl bind.
    unfold descriptive_stats_of. do 4 eexists. split; [reflexivity|].
    split.
    + simpl. unfold series_std.
      destruct (Nat.leb_spec (List.length xs) 1); [reflexivity | lia].
    + intros ->. simpl.
      assert (Hm : series_mean [] = NaN) by exact np_mean_nil.
      rewrite Hm. repeat split; reflexivity.
Qed.

Lemma degenerate_tables_yield_nan_witness :
  calculate_inferential_stats t_one_df (single_frame 7) (95 / 100) 20 =
  Ok ((NaN, NaN), (NaN, NaN)) /\
  stats_sem [7]%Z 1 = NaN.
Proof.
  assert (Hu : units_sold (single_frame 7) = Ok [7]%Z) by reflexivity.
  assert (Hn : (List.length [7]%Z <= 1)%nat) by (simpl; lia).
  destruct (degenerate_tables_yield_nan t_one_df (single_frame 7) [7]%Z
              (95 / 100) 20 Hu Hn) as (H1 & H2 & _).
  split; [exact H1 | exact H2].
Defined.

(** ** Constant samples *)











(** ** The synthetic sample *)

Lemma draws_length (G : RNG) {A : Type}
  (draw : rng_state G -> A * rng_state G) (size : nat) (s : rng_state G) :
  List.length (fst (draws G draw size s)) = size.
Proof.
  revert s. induction size as [|k IH]; intros s; simpl; [reflexivity|].
  destruct (draw s) as [x s1]. specialize (IH s1).
  destruct (draws G draw k s1) as [xs s2]. simpl in *. lia.
Qed.

Lemma draws_Forall (G : RNG) {A : Type}
  (draw : rng_state G -> A * rng_state G) (P : A -> Prop) :
  (forall s, P (fst (draw s))) ->
  forall size s, Forall P (fst (draws G draw size s)).
Proof.
  intros HP size. induction size as [|k IH]; intros s; simpl; [constructor|].
  pose proof (HP s) as Hx. destruct (draw s) as [x s1]. specialize (IH s1).
  destruct (draws G draw k s1) as [xs s2]. simpl in *.
  constructor; assumption.
Qed.

Lemma np_random_choice_length (G : RNG) (a : list string) (size : nat)
  (s : rng_state G) :
  List.length (fst (np_random_choice G a size s)) = size.
Proof.
  unfold np_random_choice.
  pose proof (draws_length G (fun s0 => rng_randint G s0 (List.length a))
                size s) as H.
  destruct (draws G _ size s) as [idx s']. simpl in *.
  rewrite length_map. exact H.
Qed.

Lemma np_random_choice_In (G : RNG) (a : list string) (size : nat)
  (s : rng_state G) :
  a <> [] ->
  (forall s0 n, (0 < n)%nat -> (fst (rng_randint G s0 n) < n)%nat) ->
  Forall (fun c => In c a) (fst (np_random_choice G a size s)).
Proof.
  intros Ha Hlt. unfold np_random_choice.
  pose proof (draws_Forall G (fun s0 => rng_randint G s0 (List.length a))
                (fun i => (i < List.length a)%nat)) as H.
  specialize (H (fun s0 => Hlt s0 (List.length a)
                             ltac:(destruct a; [congruence | simpl; lia]))
                size s).
  destruct (draws G _ size s) as [idx s']. simpl in *.
  apply Forall_map. eapply Forall_impl; [|exact H].
  intros i Hi. apply nth_In. exact Hi.
Qed.

(** The columns of the rows read side by side, for columns of one length. *)
Lemma zip_rows_columns (ids : list nat) :
  forall (names cats : list string) (units : list Z) (dates : list date),
    List.length names = List.length ids ->
    List.length cats = List.length ids ->
    List.length units = List.length ids ->
    List.length dates = List.length ids ->
    let rs := zip_rows ids names cats units dates in
    List.length rs = List.length ids /\
    map (fun r => nth 0 r VNaN) rs = map (fun i => VInt (Z.of_nat i)) ids /\
    map (fun r => nth 1 r VNaN) rs = map VStr names /\
    map (fun r => nth 2 r VNaN) rs = map VStr cats /\
    map (fun r => nth 3 r VNaN) rs = map VInt units /\
    map (fun r => nth 4 r VNaN) rs = map VDate dates.
Proof.
  induction ids as [|i ids IH]; intros names cats units dates Hn Hc Hu Hd.
  - destruct names, cats, units, dates; try discriminate.
    simpl. repeat split; reflexivity.
  - destruct names as [|n names], cats as [|c cats], units as [|u units],
      dates as [|d dates]; try discriminate.
    simpl in Hn, Hc, Hu, Hd.
    destruct (IH names cats units dates) as (H0 & H1 & H2 & H3 & H4 & H5);
      try lia.
    cbn zeta in *. cbn [zip_rows List.length map].
    rewrite H0, H1, H2, H3, H4, H5. repeat split; reflexivity.
Qed.

Lemma generate_sample_data_eq (G : RNG) (s : rng_state G) :
  let cats := np_random_choice G categories 20 (rng_seed G 42) in
  let units := np_random_poisson G 20 20 (snd cats) in
  generate_sample_data G s =
  (mkDataFrame schema
     (zip_rows (seq 1 20)
        (map (fun i => ("Product " ++ str_of_nat i)%string) (seq 1 20))
        (fst cats) (fst units) (date_range (mkdate 2023 1 1) 20)),
   snd units).
Proof.
  cbv zeta. unfold generate_sample_data.
  destruct (np_random_choice G categories 20 (rng_seed G 42)) as [cs s1].
  cbn [fst snd].
  destruct (np_random_poisson G 20 20 s1) as [us s2]. reflexivity.
Qed.

(** C9. With no uploaded file, the table the generator returns does not
    depend on the state the global random generator is in at the call:
    two invocations from any two states return the same table.  The table
    has the five columns of the schema and 20 rows; [product_id] is 1..20;
    [product_name] is "Product i"; [category] holds the 20 choices drawn
    from the state seeded with 42, each among Electronics, Clothing, Home
    and Sports (the generator's index draws being below the bound);
    [units_sold] holds the 20 Poisson draws of mean 20 taken from the
    state the category draws leave; [sale_date] is 2023-01-01 to
    2023-01-20, day after day. *)
Theorem generation_is_deterministic (G : RNG) (s s' : rng_state G) :
  (forall s0 n, (0 < n)%nat -> (fst (rng_randint G s0 n) < n)%nat) ->
  let df := fst (generate_sample_data G s) in
  let cats := np_random_choice G categories 20 (rng_seed G 42) in
  let units := np_random_poisson G 20 20 (snd cats) in
  fst (generate_sample_data G s') = df /\
  columns df = schema /\
  List.length (rows df) = 20%nat /\
  getitem df "product_id" =
    Ok (map (fun i => VInt (Z.of_nat i)) (seq 1 20)) /\
  getitem df "product_name" =
    Ok (map (fun i => VStr ("Product " ++ str_of_nat i)%string) (seq 1 20)) /\
  getitem df "category" = Ok (map VStr (fst cats)) /\
  Forall (fun c => In c categories) (fst cats) /\
  getitem df "units_sold" = Ok (map VInt (fst units)) /\
  getitem df "sale_date" =
    Ok (map (fun i => VDate (mkdate 2023 1 i)) (seq 1 20)).
Proof.
  intros Hlt df cats units.
  split; [reflexivity|].
  subst df. rewrite generate_sample_data_eq. fold cats. fold units.
  cbn [fst].
  pose proof (np_random_choice_length G categories 20 (rng_seed G 42)) as Lc.
  pose proof (np_random_choice_In G categories 20 (rng_seed G 42)
                ltac:(discriminate) Hlt) as Mc.
  fold cats in Lc, Mc.
  assert (Lu : List.length (fst units) = 20%nat) by (apply draws_length).
  destruct (zip_rows_columns (seq 1 20)
              (map (fun i => ("Product " ++ str_of_nat i)%string) (seq 1 20))
              (fst cats) (fst units) (date_range (mkdate 2023 1 1) 20))
    as (H0 & H1 & H2 & H3 & H4 & H5);
    try (rewrite ?length_map, ?length_seq; assumption || reflexivity).
  cbn zeta in *.
  split; [reflexivity|].
  split; [exact H0|].
  unfold getitem. cbn [columns rows schema index_of String.eqb Ascii.eqb
                       Bool.eqb option_map].
  rewrite H1, H2, H3, H4, H5, map_map.
  repeat split; try reflexivity. exact Mc.
Qed.

Lemma toy_rng_randint_lt (s0 : rng_state toy_rng) (n : nat) :
  (0 < n)%nat -> (fst (rng_randint toy_rng s0 n) < n)%nat.
Proof.
  intros Hn. simpl.
  pose proof (Z.mod_pos_bound (s0 / 65536) (Z.of_nat n) ltac:(lia)). lia.
Qed.

Lemma generation_is_deterministic_witness :
  fst (generate_sample_data toy_rng 7%Z) =
  fst (generate_sample_data toy_rng 12345%Z) /\
  List.length (rows (fst (generate_sample_data toy_rng 12345%Z))) = 20%nat.
Proof.
  destruct (generation_is_deterministic toy_rng 12345%Z 7%Z toy_rng_randint_lt)
    as (H1 & _ & H3 & _).
  split; [exact H1 | exact H3].
Defined.

(** ** Strings *)

Lemma append_nil_r (s : string) : (s ++ "")%string = s.
Proof. induction s as [|c s IH]; simpl; [reflexivity | rewrite IH; reflexivity]. Qed.

Lemma append_assoc (a b c : string) :
  ((a ++ b) ++ c)%string = (a ++ (b ++ c))%string.
Proof. induction a as [|x a IH]; simpl; [reflexivity | rewrite IH; reflexivity]. Qed.

Lemma append_snoc (a : string) (c : ascii) (b : string) :
  ((a ++ String c "") ++ b)%string = (a ++ String c b)%string.
Proof. rewrite append_assoc. reflexivity. Qed.

(** ** The tokenizer on the writer's output *)

Lemma tokenize_bytes_app (a b : string) (t : tokenizer) :
  tokenize_bytes (a ++ b) t = tokenize_bytes b (tokenize_bytes a t).
Proof.
  revert t. induction a as [|c a IH]; intros t; simpl; [reflexivity | apply IH].
Qed.

Lemma is_special_false (c : ascii) :
  is_special c = false ->
  Ascii.eqb c "," = false /\ Ascii.eqb c quote_char = false /\
  Ascii.eqb c LF = false.
Proof.
  unfold is_special. intros H.
  apply orb_false_iff in H. destruct H as [H H3].
  apply orb_false_iff in H. tauto.
Qed.

(** An unquoted run of characters is pushed on the field. *)
Lemma in_field_run (s : string) :
  forall f fs ls,
    needs_quote s = false -> has_cr s = false ->
    tokenize_bytes s (mkTok InField f fs ls) =
    mkTok InField (f ++ s) fs ls.
Proof.
  induction s as [|c s IH]; intros f fs ls Hq Hc; simpl.
  - rewrite append_nil_r. reflexivity.
  - simpl in Hq, Hc.
    apply orb_false_iff in Hq. destruct Hq as [Hsp Hq].
    apply orb_false_iff in Hc. destruct Hc as [Hcr Hc].
    destruct (is_special_false c Hsp) as (H1 & H2 & H3).
    unfold step, step_in_field. cbn [state]. rewrite H3, Hcr, H1.
    unfold set_state, push_char. cbn [state field fields lines].
    rewrite IH by assumption. rewrite append_snoc. reflexivity.
Qed.

(** The escaped text of a quoted field is pushed on the field, with each
    doubled quote as one quote. *)
Lemma quoted_run (s : string) :
  forall f fs ls,
    tokenize_bytes (escape_quotes s) (mkTok InQuotedField f fs ls) =
    mkTok InQuotedField (f ++ s) fs ls.
Proof.
  induction s as [|c s IH]; intros f fs ls; simpl.
  - rewrite append_nil_r. reflexivity.
  - destruct (Ascii.eqb c quote_char) eqn:E.
    + apply Ascii.eqb_eq in E. subst c.
      cbn [tokenize_bytes]. unfold step at 2. cbn [state].
      rewrite Ascii.eqb_refl. unfold set_state. cbn [field fields lines].
      unfold step. cbn [state]. rewrite Ascii.eqb_refl.
      unfold set_state, push_char. cbn [state field fields lines].
      rewrite IH, append_snoc. reflexivity.
    + cbn [tokenize_bytes]. unfold step. cbn [state]. rewrite E.
      unfold push_char. cbn [state field fields lines].
      rewrite IH, append_snoc. reflexivity.
Qed.

Lemma quote_not_special_start :
  Ascii.eqb quote_char LF = false /\ Ascii.eqb quote_char CR = false /\
  is_blank quote_char = false /\ Ascii.eqb quote_char "," = false.
Proof. repeat split; reflexivity. Qed.

(** One field as the writer renders it, followed by a comma or a line
    feed, read from the start of a field (or from the start of a line
    when the field is visible): the field is read back whole. *)
Lemma read_field (s : string) (c : ascii) (rest : string) (st : tstate)
  (fs : list string) (ls : list (list string)) :
  c = ","%char \/ c = LF ->
  st = StartField \/ (st = StartRecord /\ starts_visible s = true) ->
  has_cr s = false ->
  tokenize_bytes (render_field s ++ String c rest) (mkTok st "" fs ls) =
  tokenize_bytes rest (step_in_field (mkTok InField s fs ls) c).
Proof.
  intros Hc Hst Hcr. unfold render_field.
  destruct (needs_quote s) eqn:Hq.
  - cbn [append tokenize_bytes].
    assert (H1 : step (mkTok st "" fs ls) quote_char =
                 mkTok InQuotedField "" fs ls).
    { destruct Hst as [->|[-> _]]; reflexivity. }
    rewrite H1, append_assoc, tokenize_bytes_app, quoted_run.
    cbn [append tokenize_bytes].
    destruct Hc as [->| ->]; reflexivity.
  - destruct s as [|a s].
    + destruct Hst as [->|[_ Hv]]; [|discriminate].
      cbn [append tokenize_bytes].
      destruct Hc as [->| ->]; reflexivity.
    + simpl in Hq, Hcr.
      apply orb_false_iff in Hq. destruct Hq as [Hsp Hq].
      apply orb_false_iff in Hcr. destruct Hcr as [Hacr Hcr].
      destruct (is_special_false a Hsp) as (H1 & H2 & H3).
      cbn [append tokenize_bytes].
      assert (Hstep : step (mkTok st "" fs ls) a =
                      mkTok InField (String a "") fs ls).
      { destruct Hst as [->|[-> Hv]].
        - unfold step, step_start_field. cbn [state].
          rewrite H3, Hacr, H2, H1. reflexivity.
        - simpl in Hv. apply negb_true_iff in Hv.
          unfold step, step_start_record, step_start_field. cbn [state].
          rewrite H3, Hacr, Hv, H2, H1. reflexivity. }
      rewrite Hstep, tokenize_bytes_app, in_field_run by assumption.
      reflexivity.
Qed.

Lemma read_fields (fs : list string) :
  forall (f : string) (acc : list string) (ls : list (list string))
         (rest : string) (st : tstate),
    Forall (fun s => has_cr s = false) (f :: fs) ->
    st = StartField \/ (st = StartRecord /\ starts_visible f = true) ->
    tokenize_bytes (join_fields (map render_field (f :: fs))
                    ++ String LF rest) (mkTok st "" acc ls) =
    tokenize_bytes rest (mkTok StartRecord "" [] (ls ++ [acc ++ f :: fs])).
Proof.
  induction fs as [|g fs IH]; intros f acc ls rest st Hcr Hst.
  - cbn [map join_fields].
    rewrite read_field;
      [reflexivity | right; reflexivity | exact Hst |].
    inversion Hcr; assumption.
  - inversion Hcr as [|? ? Hf Hrest]; subst.
    change (join_fields (map render_field (f :: g :: fs)))
      with (render_field f
            ++ String "," (join_fields (map render_field (g :: fs))))%string.
    rewrite append_assoc. cbn [append].
    rewrite read_field; [|left; reflexivity | exact Hst | exact Hf].
    change (step_in_field (mkTok InField f acc ls) ",")
      with (mkTok StartField "" (acc ++ [f]) ls).
    rewrite IH; [|exact Hrest | left; reflexivity].
    rewrite <- app_assoc. reflexivity.
Qed.

(** One line of the writer, read from the start of a line. *)
Lemma read_row (l : list string) (ls : list (list string)) (rest : string) :
  line_ok l ->
  tokenize_bytes (writerow l ++ rest) (mkTok StartRecord "" [] ls) =
  tokenize_bytes rest (mkTok StartRecord "" [] (ls ++ [l])).
Proof.
  destruct l as [|f fs]; [intros []|]. intros [Hv Hcr].
  assert (Hw : writerow (f :: fs) =
               (join_fields (map render_field (f :: fs))
                ++ String LF "")%string).
  { unfold writerow. destruct f as [|a f]; [discriminate|]. reflexivity. }
  rewrite Hw, append_assoc. cbn [append].
  rewrite read_fields; [reflexivity | exact Hcr | right; split; [reflexivity | exact Hv]].
Qed.

Lemma read_rows (rs : list (list string)) :
  forall ls,
    Forall line_ok rs ->
    tokenize_bytes (concat_lines (map writerow rs))
                   (mkTok StartRecord "" [] ls) =
    mkTok StartRecord "" [] (ls ++ rs).
Proof.
  induction rs as [|r rs IH]; intros ls Hok; simpl.
  - rewrite app_nil_r. reflexivity.
  - inversion Hok; subst.
    rewrite read_row by assumption. rewrite IH by assumption.
    rewrite <- app_assoc. reflexivity.
Qed.

(** The reader's tokens on the text the writer produces are the fields
    written, line by line. *)
Lemma tokenize_written (h : list string) (rs : list (list string)) :
  line_ok h -> Forall line_ok rs ->
  tokenize (writerow h ++ concat_lines (map writerow rs)) = Ok (h :: rs).
Proof.
  intros Hh Hrs. unfold tokenize.
  rewrite read_row by exact Hh. rewrite read_rows by exact Hrs.
  reflexivity.
Qed.

(** ** The texts of integers and dates *)

Lemma forall_chars_app (p : ascii -> bool) (a b : string) :
  forall_chars p (a ++ b) = forall_chars p a && forall_chars p b.
Proof.
  induction a as [|c a IH]; simpl; [reflexivity|].
  rewrite IH, andb_assoc. reflexivity.
Qed.

Lemma forall_chars_impl (p q : ascii -> bool) (s : string) :
  (forall c, p c = true -> q c = true) ->
  forall_chars p s = true -> forall_chars q s = true.
Proof.
  intros Hpq. induction s as [|c s IH]; simpl; [reflexivity|].
  intros H. apply andb_true_iff in H. destruct H as [Hc Hs].
  rewrite (Hpq c Hc), (IH Hs). reflexivity.
Qed.

Lemma uint_text_digits (d : Decimal.uint) :
  forall_chars is_digit (DecimalString.NilEmpty.string_of_uint d) = true.
Proof. induction d; simpl; auto. Qed.

Lemma uint_text_nonempty (d : Decimal.uint) :
  DecimalString.NilZero.string_of_uint d <> "".
Proof. destruct d; discriminate. Qed.

Lemma uint_text_zero_digits (d : Decimal.uint) :
  forall_chars is_digit (DecimalString.NilZero.string_of_uint d) = true.
Proof.
  destruct d; try reflexivity;
    apply (uint_text_digits (_ d)).
Qed.

Lemma str_of_nat_digits (n : nat) :
  forall_chars is_digit (str_of_nat n) = true /\ str_of_nat n <> "".
Proof.
  unfold str_of_nat. split; [apply uint_text_zero_digits | apply uint_text_nonempty].
Qed.

Lemma digit_is_digit_or_dash (c : ascii) :
  is_digit c = true -> is_digit_or_dash c = true.
Proof. unfold is_digit_or_dash. intros ->. reflexivity. Qed.

Lemma str_of_Z_chars (z : Z) :
  forall_chars is_digit_or_dash (str_of_Z z) = true /\ str_of_Z z <> "".
Proof.
  unfold str_of_Z. destruct z as [|p|p]; simpl.
  - split; [reflexivity | discriminate].
  - split; [|apply uint_text_nonempty].
    apply (forall_chars_impl is_digit); [apply digit_is_digit_or_dash|].
    apply uint_text_zero_digits.
  - split; [|discriminate].
    apply (forall_chars_impl is_digit); [apply digit_is_digit_or_dash|].
    apply uint_text_zero_digits.
Qed.

Lemma zeros_digits (n : nat) : forall_chars is_digit (zeros n) = true.
Proof. induction n; simpl; auto. Qed.

Lemma zero_pad_digits (w n : nat) :
  forall_chars is_digit (zero_pad w n) = true /\ zero_pad w n <> "".
Proof.
  unfold zero_pad. destruct (str_of_nat_digits n) as [Hd Hne]. split.
  - rewrite forall_chars_app, zeros_digits, Hd. reflexivity.
  - destruct (zeros (w - String.length (str_of_nat n))); simpl;
      [exact Hne | discriminate].
Qed.

(** The text of a date: digits, a dash, and digits and dashes. *)
Lemma isoformat_shape (d : date) :
  exists y rest,
    isoformat d = (y ++ String "-" rest)%string /\
    forall_chars is_digit y = true /\ y <> "" /\
    forall_chars is_digit_or_dash rest = true.
Proof.
  unfold isoformat.
  destruct (zero_pad_digits 4 (year d)) as [Hy Hyn].
  destruct (zero_pad_digits 2 (month d)) as [Hm _].
  destruct (zero_pad_digits 2 (day d)) as [Hd _].
  eexists _, _. split; [reflexivity|]. split; [exact Hy|]. split; [exact Hyn|].
  rewrite forall_chars_app. simpl.
  rewrite (forall_chars_impl is_digit is_digit_or_dash _
             digit_is_digit_or_dash Hm).
  rewrite (forall_chars_impl is_digit is_digit_or_dash _
             digit_is_digit_or_dash Hd).
  reflexivity.
Qed.

Lemma isoformat_chars (d : date) :
  forall_chars is_digit_or_dash (isoformat d) = true /\ isoformat d <> "".
Proof.
  destruct (isoformat_shape d) as (y & rest & -> & Hy & Hyn & Hr). split.
  - rewrite forall_chars_app. simpl.
    rewrite (forall_chars_impl is_digit is_digit_or_dash _
               digit_is_digit_or_dash Hy), Hr. reflexivity.
  - destruct y; [congruence | discriminate].
Qed.

(** Texts of digits and dashes: no carriage return, no blank, not a
    missing-value marker, not a boolean. *)
Lemma dashed_no_cr (s : string) :
  forall_chars is_digit_or_dash s = true -> has_cr s = false.
Proof.
  induction s as [|c s IH]; simpl; [reflexivity|].
  intros H. apply andb_true_iff in H. destruct H as [Hc Hs].
  rewrite (IH Hs), orb_false_r.
  destruct (Ascii.eqb_spec c CR) as [->|]; [discriminate | reflexivity].
Qed.

Lemma dashed_no_space (c : ascii) :
  is_digit_or_dash c = true -> is_space c = false.
Proof.
  destruct c as [[] [] [] [] [] [] [] []]; try discriminate; reflexivity.
Qed.

Lemma dashed_visible (s : string) :
  forall_chars is_digit_or_dash s = true -> s <> "" ->
  starts_visible s = true.
Proof.
  destruct s as [|c s]; [congruence|]. simpl. intros H _.
  apply andb_true_iff in H. destruct H as [Hc _].
  destruct c as [[] [] [] [] [] [] [] []]; try discriminate; reflexivity.
Qed.

Lemma all_space_dashed (s : string) :
  forall_chars is_digit_or_dash s = true -> s <> "" -> all_space s = false.
Proof.
  destruct s as [|c s]; [congruence|]. simpl. intros H _.
  apply andb_true_iff in H. destruct H as [Hc _].
  rewrite (dashed_no_space c Hc). reflexivity.
Qed.

Lemma rstrip_dashed (s : string) :
  forall_chars is_digit_or_dash s = true -> rstrip s = s.
Proof.
  induction s as [|c s IH]; [reflexivity|]. intros H.
  pose proof (all_space_dashed (String c s) H ltac:(discriminate)) as Hsp.
  cbn [rstrip]. rewrite Hsp.
  simpl in H. apply andb_true_iff in H. destruct H as [_ Hs].
  rewrite (IH Hs). reflexivity.
Qed.

Lemma strip_dashed (s : string) :
  forall_chars is_digit_or_dash s = true -> strip s = s.
Proof.
  intros H. unfold strip.
  assert (Hl : lstrip s = s).
  { destruct s as [|c s]; [reflexivity|]. simpl in *.
    apply andb_true_iff in H. destruct H as [Hc _].
    rewrite (dashed_no_space c Hc). reflexivity. }
  rewrite Hl. apply rstrip_dashed. exact H.
Qed.

Lemma dashed_not_na (s : string) :
  forall_chars is_digit_or_dash s = true -> s <> "" -> is_na s = false.
Proof.
  intros H Hne. destruct (is_na s) eqn:E; [|reflexivity]. exfalso.
  unfold is_na in E. apply existsb_exists in E. destruct E as (v & Hv & Hsv).
  apply String.eqb_eq in Hsv. subst v.
  unfold na_values in Hv. simpl in Hv.
  repeat (destruct Hv as [<-|Hv]; [first [congruence | discriminate]|]).
  exact Hv.
Qed.

Lemma dashed_not_bool (s : string) :
  forall_chars is_digit_or_dash s = true -> parse_bool s = None.
Proof.
  intros H. unfold parse_bool.
  destruct s as [|c s]; [reflexivity|]. simpl in H.
  apply andb_true_iff in H. destruct H as [Hc _].
  destruct c as [[] [] [] [] [] [] [] []]; try discriminate; reflexivity.
Qed.

Lemma digit_not_sign (c : ascii) :
  is_digit c = true ->
  Ascii.eqb c "+" = false /\ Ascii.eqb c "-" = false /\
  Ascii.eqb c "." = false /\ lower c = c.
Proof.
  destruct c as [[] [] [] [] [] [] [] []]; try discriminate;
    repeat split; reflexivity.
Qed.

Lemma dashed_not_plus (c : ascii) :
  is_digit_or_dash c = true -> Ascii.eqb c "+" = false.
Proof.
  destruct c as [[] [] [] [] [] [] [] []]; try discriminate; reflexivity.
Qed.

Lemma to_int_nonnil (z : Z) :
  Z.to_int z <> Decimal.Pos Decimal.Nil /\
  Z.to_int z <> Decimal.Neg Decimal.Nil.
Proof.
  destruct z as [|p|p]; simpl; split; try discriminate;
    intros [= H]; exact (DecimalPos.Unsigned.to_uint_nonnil p H).
Qed.

(** The text of an integer of 64 bits is read as that integer. *)
Lemma parse_int64_str_of_Z (z : Z) :
  in_int64 z -> parse_int64 (str_of_Z z) = Some z.
Proof.
  intros [Hlo Hhi]. destruct (str_of_Z_chars z) as [Hch Hne].
  unfold parse_int64. rewrite strip_dashed by exact Hch.
  assert (E : DecimalString.NilZero.int_of_string (str_of_Z z)
              = Some (Z.to_int z)).
  { unfold str_of_Z. destruct (to_int_nonnil z).
    apply DecimalString.NilZero.isi; assumption. }
  destruct (str_of_Z z) as [|c r]; [congruence|].
  simpl in Hch. apply andb_true_iff in Hch. destruct Hch as [Hc _].
  rewrite (dashed_not_plus c Hc), E, DecimalZ.of_to.
  destruct (Z.leb_spec int64_min z); [|lia].
  destruct (Z.leb_spec z int64_max); [|lia].
  reflexivity.
Qed.

Lemma classify_str_of_Z (z : Z) :
  in_int64 z -> classify (str_of_Z z) = CInt z.
Proof.
  intros Hz. destruct (str_of_Z_chars z) as [Hch Hne].
  unfold classify. rewrite dashed_not_na by assumption.
  rewrite parse_int64_str_of_Z by exact Hz. reflexivity.
Qed.

Lemma uint_of_string_digits (s : string) (d : Decimal.uint) :
  DecimalString.NilEmpty.uint_of_string s = Some d ->
  forall_chars is_digit s = true.
Proof.
  revert d. induction s as [|c s IH]; intros d; simpl; [reflexivity|].
  destruct (DecimalString.NilEmpty.uint_of_string s) as [d0|];
    [|discriminate].
  intros H. rewrite (IH d0 eq_refl), andb_true_r.
  apply DecimalString.uint_of_char_spec in H.
  destruct H as [[-> _]|[[-> _]|[[-> _]|[[-> _]|[[-> _]|[[-> _]|[[-> _]|
                [[-> _]|[[-> _]|[-> _]]]]]]]]]]; reflexivity.
Qed.

Lemma skip_digits_app (y : string) (c : ascii) (r : string) :
  forall_chars is_digit y = true -> is_digit c = false ->
  skip_digits (y ++ String c r) = String c r.
Proof.
  intros Hy Hc. induction y as [|a y IH]; simpl.
  - rewrite Hc. reflexivity.
  - simpl in Hy. apply andb_true_iff in Hy. destruct Hy as [Ha Hy].
    rewrite Ha. apply IH. exact Hy.
Qed.

Lemma parse_int64_isoformat (d : date) : parse_int64 (isoformat d) = None.
Proof.
  destruct (isoformat_chars d) as [Hch Hne].
  destruct (isoformat_shape d) as (y & rest & E & Hy & Hyn & Hr).
  unfold parse_int64. rewrite strip_dashed by exact Hch. rewrite E.
  destruct y as [|y0 y]; [congruence|]. cbn [append].
  simpl in Hy. apply andb_true_iff in Hy. destruct Hy as [Hy0 Hy].
  destruct (digit_not_sign y0 Hy0) as (Hp & Hm & _ & _).
  rewrite Hp. unfold DecimalString.NilZero.int_of_string. rewrite Hm.
  unfold DecimalString.NilZero.uint_of_string.
  destruct (DecimalString.NilEmpty.uint_of_string
              (String y0 (y ++ String "-" rest))) as [u|] eqn:Eu;
    [|reflexivity].
  apply uint_of_string_digits in Eu. simpl in Eu.
  rewrite forall_chars_app in Eu. simpl in Eu.
  rewrite Hy0, Hy in Eu. discriminate.
Qed.

Lemma is_float_literal_isoformat (d : date) :
  is_float_literal (isoformat d) = false.
Proof.
  destruct (isoformat_chars d) as [Hch Hne].
  destruct (isoformat_shape d) as (y & rest & E & Hy & Hyn & Hr).
  unfold is_float_literal. rewrite strip_dashed by exact Hch. rewrite E.
  destruct y as [|y0 y]; [congruence|]. cbn [append].
  pose proof Hy as Hy'.
  simpl in Hy. apply andb_true_iff in Hy. destruct Hy as [Hy0 Hy].
  destruct (digit_not_sign y0 Hy0) as (Hp & Hm & _ & Hl).
  unfold skip_sign. rewrite Hp, Hm. cbn [orb].
  change (String y0 (y ++ String "-" rest))
    with (String y0 y ++ String "-" rest)%string.
  rewrite skip_digits_app by (exact Hy' || reflexivity).
  cbn [Ascii.eqb Bool.eqb skip_exponent orb andb].
  rewrite andb_false_r. cbn [append lowercase existsb].
  rewrite Hl.
  destruct y0 as [[] [] [] [] [] [] [] []]; try discriminate; reflexivity.
Qed.

(** The text of a date is read as text. *)
Lemma classify_isoformat (d : date) : classify (isoformat d) = CText.
Proof.
  destruct (isoformat_chars d) as [Hch Hne].
  unfold classify. rewrite dashed_not_na by assumption.
  rewrite parse_int64_isoformat, is_float_literal_isoformat.
  rewrite dashed_not_bool by exact Hch. reflexivity.
Qed.

(** ** The round trip through CSV *)

Lemma fill_full (w : nat) (l : list string) :
  List.length l = w -> fill w l = l.
Proof.
  intros H. unfold fill. rewrite H, Nat.sub_diag. simpl. apply app_nil_r.
Qed.

Lemma check_widths_rect (w : nat) (data : list (list string)) :
  Forall (fun l => List.length l = w) data -> check_widths w data = Ok data.
Proof.
  induction 1 as [|l data Hl _ IH]; simpl; [reflexivity|].
  rewrite Hl, Nat.ltb_irrefl, IH. simpl. rewrite fill_full by exact Hl.
  reflexivity.
Qed.

(** Lines of the width of the header are the rows as they are. *)
Lemma shape_rect (k : nat) (data : list (list string)) :
  Forall (fun l => List.length l = k) data -> shape k data = Ok data.
Proof.
  intros H. destruct data as [|first rest]; [reflexivity|].
  inversion H as [|? ? Hf Hr]; subst. unfold shape.
  rewrite fill_full by reflexivity.
  rewrite check_widths_rect by exact Hr. simpl bind.
  rewrite Nat.sub_diag. f_equal. cbn [map skipn]. f_equal.
  exact (map_id rest).
Qed.

Lemma column_dtype_int (cells : list string) :
  Forall (fun s => exists z, classify s = CInt z) cells ->
  column_dtype cells = Int64.
Proof.
  intros H. unfold column_dtype.
  assert (E : filter (fun c => negb (is_CNA c)) (map classify cells)
              = map classify cells /\
              forallb is_CInt (map classify cells) = true /\
              existsb is_CNA (map classify cells) = false).
  { induction H as [|s cells [z Hs] _ (IH1 & IH2 & IH3)]; simpl;
      [repeat split; reflexivity|].
    rewrite Hs. simpl. rewrite IH1, IH2, IH3. repeat split; reflexivity. }
  destruct E as (E1 & E2 & E3). rewrite E1, E2, E3. reflexivity.
Qed.

Lemma column_dtype_text (cells : list string) :
  cells <> [] -> Forall (fun s => classify s = CText) cells ->
  column_dtype cells = Object.
Proof.
  intros Hne H. destruct cells as [|s cells]; [congruence|].
  inversion H as [|? ? Hs _]; subst.
  unfold column_dtype. simpl. rewrite Hs. reflexivity.
Qed.

Lemma row_text_line_ok (r : SalesRecord) :
  record_ok r -> line_ok (row_text r).
Proof.
  intros (_ & _ & [Hn _] & [Hc _]). unfold row_text, row_of. simpl.
  destruct (str_of_Z_chars (product_id r)) as [Hi Hine].
  destruct (str_of_Z_chars (units r)) as [Hu _].
  destruct (isoformat_chars (sale_date r)) as [Hd _].
  split; [apply dashed_visible; assumption|].
  repeat constructor; try assumption; apply dashed_no_cr; assumption.
Qed.

Lemma convert_row_record (r : SalesRecord) :
  record_ok r ->
  convert_row [Int64; Object; Object; Int64; Object] (row_text r)
  = reread_row r.
Proof.
  intros (Hi & Hu & [_ Hn] & [_ Hc]).
  unfold convert_row, row_text, row_of, reread_row, convert. simpl.
  rewrite (classify_str_of_Z _ Hi), (classify_str_of_Z _ Hu), Hn, Hc,
    classify_isoformat. reflexivity.
Qed.

(** The reader on the text the writer produces for a table of sales
    records. *)
Lemma read_csv_to_csv (t : list SalesRecord) :
  Forall record_ok t ->
  read_csv (to_csv (frame_of t)) = Ok (mkDataFrame schema (map reread_row t)).
Proof.
  intros Hok.
  assert (Htok : tokenize (to_csv (frame_of t))
                 = Ok (schema :: map row_text t)).
  { unfold to_csv, frame_of. cbn [columns rows].
    rewrite map_map.
    rewrite <- (map_map row_text writerow).
    apply tokenize_written.
    - split; [reflexivity | repeat constructor].
    - apply Forall_map. eapply Forall_impl; [|exact Hok].
      exact row_text_line_ok. }
  unfold read_csv. rewrite Htok. simpl bind.
  rewrite shape_rect
    by (apply Forall_map, Forall_forall; intros; reflexivity).
  simpl bind. f_equal. f_equal.
  destruct t as [|r t]; [reflexivity|].
  remember (r :: t) as rs eqn:Ers.
  assert (Hne : rs <> []) by (subst; discriminate).
  cbn [List.length schema seq map].
  unfold column_cells. rewrite !map_map.
  cbn [row_text row_of map format_value nth].
  rewrite (column_dtype_int (map (fun x => str_of_Z (product_id x)) rs)).
  2:{ apply Forall_map. eapply Forall_impl; [|exact Hok].
      intros x (Hi & _). eexists. apply classify_str_of_Z. exact Hi. }
  rewrite (column_dtype_int (map (fun x => str_of_Z (units x)) rs)).
  2:{ apply Forall_map. eapply Forall_impl; [|exact Hok].
      intros x (_ & Hu & _). eexists. apply classify_str_of_Z. exact Hu. }
  rewrite (column_dtype_text (map (fun x => product_name x) rs)).
  2:{ destruct rs; [congruence | discriminate]. }
  2:{ apply Forall_map. eapply Forall_impl; [|exact Hok].
      intros x (_ & _ & [_ Hn] & _). exact Hn. }
  rewrite (column_dtype_text (map (fun x => category x) rs)).
  2:{ destruct rs; [congruence | discriminate]. }
  2:{ apply Forall_map. eapply Forall_impl; [|exact Hok].
      intros x (_ & _ & _ & [_ Hc]). exact Hc. }
  rewrite (column_dtype_text (map (fun x => isoformat (sale_date x)) rs)).
  2:{ destruct rs; [congruence | discriminate]. }
  2:{ apply Forall_map, Forall_forall. intros x _. apply classify_isoformat. }
  apply map_ext_in. intros x Hx.
  apply convert_row_record.
  rewrite Forall_forall in Hok. apply Hok. exact Hx.
Qed.

(** C6, as the code has it. For every table of N sales records whose
    integers fit 64 bits and whose text fields hold no carriage return and
    do not read as a number, a boolean or a missing-value marker:
    encoding the table and decoding the text with the load path, then
    filtering with the empty filter, returns the five columns in their
    order and the N rows in their order, with [product_id],
    [product_name], [category] and [units_sold] identical to the
    original; [sale_date] comes back as the ISO text of each date, not as
    the date. *)
Theorem csv_round_trip_keeps_rows (t : list SalesRecord) :
  Forall record_ok t ->
  let back := mkDataFrame schema (map reread_row t) in
  (df <- load_csv (download_df (frame_of t)) ;; apply_filter [] df) = Ok back /\
  columns back = columns (frame_of t) /\
  List.length (rows back) = List.length t /\
  getitem back "product_id" = getitem (frame_of t) "product_id" /\
  getitem back "product_name" = getitem (frame_of t) "product_name" /\
  getitem back "category" = getitem (frame_of t) "category" /\
  getitem back "units_sold" = getitem (frame_of t) "units_sold" /\
  getitem back "sale_date" =
    Ok (map (fun r => VStr (isoformat (sale_date r))) t) /\
  getitem (frame_of t) "sale_date" =
    Ok (map (fun r => VDate (sale_date r)) t).
Proof.
  intros Hok back. split.
  - unfold load_csv, download_df. rewrite read_csv_to_csv by exact Hok.
    reflexivity.
  - subst back. unfold frame_of, getitem. cbn [columns rows].
    split; [reflexivity|].
    split; [apply length_map|].
    cbn [schema index_of String.eqb Ascii.eqb Bool.eqb option_map].
    rewrite !map_map. repeat split; reflexivity.
Qed.

Lemma two_sales_ok : Forall record_ok two_sales.
Proof.
  repeat constructor; try reflexivity;
    unfold int64_min, int64_max; simpl; lia.
Qed.

Lemma csv_round_trip_keeps_rows_witness :
  (df <- load_csv (download_df (frame_of two_sales)) ;; apply_filter [] df)
  = Ok (mkDataFrame schema (map reread_row two_sales)).
Proof.
  exact (proj1 (csv_round_trip_keeps_rows two_sales two_sales_ok)).
Defined.

(** C6, as the specification states it, fails: the row
    (1, Product 1, Home, 23, 2023-01-01) comes back with the text
    "2023-01-01" in place of the date; and a product name 007 comes back
    as the integer 7, a category NA as a missing value. *)
Lemma csv_round_trip_counterexample :
  let t := [mkSale 1 "Product 1" "Home" 23 (mkdate 2023 1 1)] in
  let u := [mkSale 2 "007" "NA" 5 (mkdate 2023 1 2)] in
  (df <- load_csv (download_df (frame_of t)) ;; apply_filter [] df)
  = Ok (mkDataFrame schema
          [[VInt 1; VStr "Product 1"; VStr "Home"; VInt 23;
            VStr "2023-01-01"]]) /\
  (df <- load_csv (download_df (frame_of t)) ;; apply_filter [] df)
  <> Ok (frame_of t) /\
  (df <- load_csv (download_df (frame_of u)) ;; apply_filter [] df)
  = Ok (mkDataFrame schema
          [[VInt 2; VInt 7; VNaN; VInt 5; VStr "2023-01-02"]]) /\
  (df <- load_csv (download_df (frame_of u)) ;; apply_filter [] df)
  <> Ok (frame_of u).
Proof.
  cbv zeta.
  assert (H1 : (df <- load_csv (download_df
                       (frame_of [mkSale 1 "Product 1" "Home" 23
                                         (mkdate 2023 1 1)])) ;;
                apply_filter [] df)
               = Ok (mkDataFrame schema
                       [[VInt 1; VStr "Product 1"; VStr "Home"; VInt 23;
                         VStr "2023-01-01"]])) by (vm_compute; reflexivity).
  assert (H2 : (df <- load_csv (download_df
                       (frame_of [mkSale 2 "007" "NA" 5 (mkdate 2023 1 2)])) ;;
                apply_filter [] df)
               = Ok (mkDataFrame schema
                       [[VInt 2; VInt 7; VNaN; VInt 5; VStr "2023-01-02"]]))
    by (vm_compute; reflexivity).
  split; [exact H1|]. split; [rewrite H1; discriminate|].
  split; [exact H2|]. rewrite H2. discriminate.
Qed.

(** ** The load path *)

Lemma getitem_missing (df : DataFrame) (name : string) :
  ~ In name (columns df) -> getitem df name = Raise (KeyError name).
Proof.
  intros H. unfold getitem. rewrite (index_of_not_In _ _ H). reflexivity.
Qed.








(** * Further properties *)

(** ** The sorted values of a series *)

Lemma insert_sorted (x : Z) (l : list Z) :
  StronglySorted Z.le l -> StronglySorted Z.le (insert x l).
Proof.
  induction 1 as [|y l Hs IH Hall]; simpl.
  - repeat constructor.
  - destruct (Z.leb_spec x y) as [Hle|Hlt].
    + constructor; [constructor; assumption|].
      constructor; [exact Hle|].
      eapply Forall_impl; [|exact Hall]. intros z Hz. simpl in Hz. lia.
    + constructor; [exact IH|].
      apply Forall_forall. intros z Hz. apply insert_In in Hz.
      destruct Hz as [->|Hz]; [lia|].
      rewrite Forall_forall in Hall. apply Hall. exact Hz.
Qed.

Lemma sort_sorted (l : list Z) : StronglySorted Z.le (sort l).
Proof.
  induction l as [|x l IH]; simpl; [constructor|].
  apply insert_sorted. exact IH.
Qed.

Lemma insert_perm (x : Z) (l : list Z) : Permutation (insert x l) (x :: l).
Proof.
  induction l as [|y l IH]; simpl; [reflexivity|].
  destruct (x <=? y)%Z; [reflexivity|].
  rewrite IH. apply perm_swap.
Qed.

Lemma sort_perm (l : list Z) : Permutation (sort l) l.
Proof.
  induction l as [|x l IH]; simpl; [reflexivity|].
  rewrite insert_perm, IH. reflexivity.
Qed.

Lemma sorted_nth_le (s : list Z) :
  StronglySorted Z.le s ->
  forall i j d, (i <= j)%nat -> (j < List.length s)%nat ->
                (nth i s d <= nth j s d)%Z.
Proof.
  induction 1 as [|y l Hs IH Hall]; intros i j d Hij Hj; simpl in Hj; [lia|].
  destruct i as [|i], j as [|j]; simpl; try lia.
  - rewrite Forall_forall in Hall. apply Hall. apply nth_In. lia.
  - apply IH; lia.
Qed.

Lemma series_min_nth (xs : list Z) :
  xs <> [] -> series_min xs = of_Z (nth 0 (sort xs) 0%Z).
Proof.
  intros H. unfold series_min.
  destruct (sort xs) as [|m s] eqn:E; [|reflexivity].
  exfalso. apply H. apply length_zero_iff_nil.
  rewrite <- sort_length, E. reflexivity.
Qed.

Lemma series_max_nth (xs : list Z) :
  xs <> [] ->
  series_max xs = of_Z (nth (List.length xs - 1) (sort xs) 0%Z).
Proof.
  intros H. unfold series_max.
  assert (Hn : (0 < List.length (sort xs))%nat).
  { rewrite sort_length. destruct xs; [congruence | simpl; lia]. }
  pose proof (rev_nth (sort xs) 0%Z Hn) as Hr.
  rewrite sort_length in Hr.
  destruct (List.rev (sort xs)) as [|m s] eqn:E.
  - exfalso. apply (f_equal (@List.length Z)) in E.
    rewrite length_rev in E. simpl in E. lia.
  - cbn [nth] in Hr. rewrite Hr. reflexivity.
Qed.









Lemma series_quartile_Fin (k : nat) (xs : list Z) :
  xs <> [] ->
  series_quartile k xs =
  Fin (interpolate (sort xs) ((List.length xs - 1) * k)).
Proof.
  intros Hne. unfold series_quartile, interpolate. cbv zeta.
  destruct (List.length xs) as [|m] eqn:En.
  - destruct xs; [congruence | discriminate].
  - unfold of_Z, of_nat. rewrite fdiv_Fin by lra. reflexivity.
Qed.

Lemma next_value_ge (s : list Z) (i : nat) :
  StronglySorted Z.le s ->
  (nth i s 0 <= nth (S i) s (nth i s 0))%Z.
Proof.
  intros Hs. destruct (Nat.lt_ge_cases (S i) (List.length s)) as [Hlt|Hge].
  - rewrite (nth_indep s _ 0%Z Hlt). apply sorted_nth_le; [exact Hs | lia | exact Hlt].
  - rewrite (nth_overflow s (nth i s 0%Z) Hge). lia.
Qed.

Lemma fraction_bounds (p : nat) : (0 <= INR (p mod 4) / 4 <= 1)%R.
Proof.
  pose proof (Nat.mod_upper_bound p 4 ltac:(lia)) as H.
  pose proof (pos_INR (p mod 4)) as H0.
  assert (H1 : (INR (p mod 4) <= 4)%R).
  { replace 4%R with (INR 4) by (simpl; lra). apply le_INR. lia. }
  lra.
Qed.

Lemma interpolate_between (s : list Z) (p : nat) :
  StronglySorted Z.le s ->
  (IZR (nth (p / 4) s 0%Z) <= interpolate s p
   <= IZR (nth (S (p / 4)) s (nth (p / 4) s 0%Z)))%R.
Proof.
  intros Hs. unfold interpolate. cbv zeta.
  pose proof (next_value_ge s (p / 4) Hs) as Hge.
  pose proof (fraction_bounds p) as [F0 F1].
  rewrite minus_IZR. apply IZR_le in Hge. nra.
Qed.

(** The interpolated value does not decrease with the position. *)
Lemma interpolate_mono (s : list Z) (p q : nat) :
  StronglySorted Z.le s ->
  (p <= q)%nat -> (q / 4 < List.length s)%nat ->
  (interpolate s p <= interpolate s q)%R.
Proof.
  intros Hs Hpq Hq.
  assert (Hlo : (p / 4 <= q / 4)%nat) by (apply Nat.Div0.div_le_mono; exact Hpq).
  destruct (Nat.eq_dec (p / 4) (q / 4)) as [E|NE].
  - unfold interpolate. cbv zeta. rewrite E.
    pose proof (next_value_ge s (q / 4) Hs) as Hge.
    assert (Hr : (p mod 4 <= q mod 4)%nat).
    { pose proof (Nat.div_mod_eq p 4). pose proof (Nat.div_mod_eq q 4). lia. }
    apply le_INR in Hr. rewrite minus_IZR. apply IZR_le in Hge. nra.
  - destruct (interpolate_between s p Hs) as [_ Hp].
    destruct (interpolate_between s q Hs) as [Hq' _].
    assert (Hlt : (S (p / 4) < List.length s)%nat) by lia.
    rewrite (nth_indep s _ 0%Z Hlt) in Hp.
    assert (Hmid : (nth (S (p / 4)) s 0 <= nth (q / 4) s 0)%Z)
      by (apply sorted_nth_le; [exact Hs | lia | exact Hq]).
    apply IZR_le in Hmid. lra.
Qed.

Lemma interpolate_exact (s : list Z) (i : nat) :
  interpolate s (4 * i) = IZR (nth i s 0%Z).
Proof.
  unfold interpolate. cbv zeta.
  replace (4 * i / 4)%nat with i
    by (rewrite Nat.mul_comm, Nat.div_mul; lia).
  replace (4 * i mod 4)%nat with 0%nat
    by (rewrite Nat.mul_comm, Nat.Div0.mod_mul; reflexivity).
  simpl INR. lra.
Qed.

Lemma to_int64_length (series : list value) (xs : list Z) :
  to_int64 series = Ok xs -> List.length xs = List.length series.
Proof.
  revert xs. induction series as [|v series IH]; intros xs; simpl.
  - intros [= <-]. reflexivity.
  - destruct v; try discriminate.
    destruct (to_int64 series) as [ys|e]; simpl; [|discriminate].
    intros [= <-]. simpl. rewrite (IH ys eq_refl). reflexivity.
Qed.

Lemma units_sold_length (df : DataFrame) (xs : list Z) :
  units_sold df = Ok xs -> List.length xs = List.length (rows df).
Proof.
  unfold units_sold, getitem.
  destruct (index_of "units_sold" (columns df)); simpl; [|discriminate].
  intros H. apply to_int64_length in H. rewrite H. apply length_map.
Qed.

(** The median of pandas is the quantile 1/2 by interpolation. *)
Lemma series_median_interpolate (xs : list Z) :
  xs <> [] ->
  series_median xs = Fin (interpolate (sort xs) ((List.length xs - 1) * 2)).
Proof.
  intros Hne. unfold series_median. cbv zeta.
  destruct (List.length xs) as [|m] eqn:En.
  - destruct xs; [congruence | discriminate].
  - replace (S m - 1)%nat with m by lia.
    destruct (Nat.even (S m)) eqn:Ev.
    + apply Nat.even_spec in Ev. destruct Ev as [j Hj].
      assert (Hm : m = (2 * j - 1)%nat) by lia.
      assert (Hj1 : (1 <= j)%nat) by lia.
      assert (Hh : (S m / 2 = j)%nat)
        by (symmetry; apply (Nat.div_unique (S m) 2 j 0); lia).
      rewrite Hh.
      unfold of_Z. cbn [fadd]. rewrite fdiv_Fin by lra. f_equal.
      unfold interpolate. cbv zeta.
      assert (Hd : (m * 2 / 4 = j - 1)%nat).
      { symmetry. apply (Nat.div_unique (m * 2) 4 (j - 1) 2); lia. }
      assert (Hr : (m * 2 mod 4 = 2)%nat).
      { symmetry. apply (Nat.mod_unique (m * 2) 4 (j - 1) 2); lia. }
      rewrite Hd, Hr.
      replace (S (j - 1)) with j by lia.
      rewrite (nth_indep (sort xs) (nth (j - 1) (sort xs) 0%Z) 0%Z)
        by (rewrite sort_length, En; lia).
      rewrite minus_IZR. simpl INR. lra.
    + assert (Ho : Nat.odd (S m) = true)
        by (rewrite <- Nat.negb_even, Ev; reflexivity).
      apply Nat.odd_spec in Ho. destruct Ho as [j Hj].
      assert (Hm : m = (2 * j)%nat) by lia.
      replace (m * 2)%nat with (4 * j)%nat by lia.
      rewrite interpolate_exact.
      assert (Hh : (S m / 2 = j)%nat)
        by (symmetry; apply (Nat.div_unique (S m) 2 j 1); lia).
      rewrite Hh. reflexivity.
Qed.

(** X2. For every table with at least one row whose [units_sold] column
    is a series of integers, the summary of the descriptive calculator
    counts the rows of the table, its entries are in the order
    min <= 25% <= 50% <= 75% <= max, and its 50% entry is the median the
    calculator returns. *)
Theorem summary_quartiles_ordered (df : DataFrame) (xs : list Z) :
  units_sold df = Ok xs ->
  xs <> [] ->
  exists d mean_val median_val mode_val,
    calculate_descriptive_stats df = Ok (d, mean_val, median_val, mode_val) /\
    d_count d = List.length (rows df) /\
    fle (d_min d) (d_q25 d) /\ fle (d_q25 d) (d_q50 d) /\
    fle (d_q50 d) (d_q75 d) /\ fle (d_q75 d) (d_max d) /\
    d_q50 d = median_val.
Proof.
  intros Hu Hne. unfold calculate_descriptive_stats. rewrite Hu. simpl bind.
  unfold descriptive_stats_of. do 4 eexists. split; [reflexivity|].
  cbn [series_describe d_count d_min d_q25 d_q50 d_q75 d_max].
  split; [apply units_sold_length; exact Hu|].
  rewrite series_min_nth, series_max_nth by exact Hne.
  rewrite !series_quartile_Fin by exact Hne.
  rewrite series_median_interpolate by exact Hne.
  unfold of_Z.
  rewrite <- (interpolate_exact (sort xs) 0).
  rewrite <- (interpolate_exact (sort xs) (List.length xs - 1)).
  pose proof (sort_sorted xs) as Hs.
  assert (Hn : (0 < List.length xs)%nat)
    by (destruct xs; [congruence | simpl; lia]).
  set (m := (List.length xs - 1)%nat).
  assert (Hq : forall p, (p <= 4 * m)%nat ->
                         (p / 4 < List.length (sort xs))%nat).
  { intros p Hp. rewrite sort_length.
    assert (p / 4 <= m)%nat
      by (apply Nat.Div0.div_le_upper_bound; lia).
    unfold m in *. lia. }
  repeat split; try reflexivity;
    apply fle_Fin, interpolate_mono; try exact Hs; try apply Hq; lia.
Qed.

Lemma summary_quartiles_ordered_witness :
  exists d mean_val median_val mode_val,
    calculate_descriptive_stats mode_frame =
    Ok (d, mean_val, median_val, mode_val) /\
    d_count d = List.length (rows mode_frame) /\
    fle (d_min d) (d_q25 d) /\ fle (d_q25 d) (d_q50 d) /\
    fle (d_q50 d) (d_q75 d) /\ fle (d_q75 d) (d_max d) /\
    d_q50 d = median_val.
Proof.
  assert (Hu : units_sold mode_frame = Ok [20; 20; 20; 25; 25; 30]%Z)
    by reflexivity.
  assert (Hne : [20; 20; 20; 25; 25; 30]%Z <> []) by discriminate.
  exact (summary_quartiles_ordered mode_frame _ Hu Hne).
Defined.

(** ** Spread of a series *)







(** ** The one-sample t-test *)






(** ** The verdict of the test *)




Lemma decision_NaN : decision NaN = FailToReject.
Proof. reflexivity. Qed.









(** ** The filter and the calculators *)

Lemma select_map {A B : Type} (f : A -> B) (mask : list bool) (l : list A) :
  select mask (map f l) = map f (select mask l).
Proof.
  revert l. induction mask as [|b mask IH]; intros [|x l]; simpl;
    try reflexivity.
  destruct b; simpl; rewrite IH; reflexivity.
Qed.

Lemma select_subseq {A : Type} (mask : list bool) (l : list A) :
  subseq (select mask l) l.
Proof.
  revert mask. induction l as [|x l IH]; intros [|b mask]; simpl.
  - constructor.
  - constructor.
  - constructor. exact (IH []).
  - destruct b; constructor; apply IH.
Qed.

Lemma subseq_length {A : Type} (l1 l2 : list A) :
  subseq l1 l2 -> (List.length l1 <= List.length l2)%nat.
Proof.
  induction 1; simpl; lia.
Qed.

Lemma to_int64_map (series : list value) (xs : list Z) :
  to_int64 series = Ok xs -> series = map VInt xs.
Proof.
  revert xs. induction series as [|v series IH]; intros xs H.
  - injection H as <-. reflexivity.
  - destruct v; try discriminate. simpl in H.
    destruct (to_int64 series) as [ys|e]; [|discriminate].
    injection H as <-. simpl. f_equal. apply IH. reflexivity.
Qed.

Lemma to_int64_ints (xs : list Z) : to_int64 (map VInt xs) = Ok xs.
Proof.
  induction xs as [|x xs IH]; simpl; [reflexivity|]. rewrite IH. reflexivity.
Qed.

(** A column of the frame a mask selects is the mask applied to the
    column. *)
Lemma getitem_mask_column (df : DataFrame) (mask : list bool)
  (name : string) (series : list value) :
  getitem df name = Ok series ->
  getitem (getitem_mask df mask) name = Ok (select mask series).
Proof.
  unfold getitem, getitem_mask. cbn [columns rows].
  destruct (index_of name (columns df)) as [i|]; [|discriminate].
  intros [= <-]. rewrite select_map. reflexivity.
Qed.

Lemma units_sold_mask (df : DataFrame) (mask : list bool) (xs : list Z) :
  units_sold df = Ok xs ->
  units_sold (getitem_mask df mask) = Ok (select mask xs).
Proof.
  unfold units_sold. intros H.
  destruct (getitem df "units_sold") as [series|e] eqn:Hg; [|discriminate].
  simpl in H. apply to_int64_map in H. subst series.
  rewrite (getitem_mask_column df mask _ _ Hg). simpl bind.
  rewrite select_map. apply to_int64_ints.
Qed.

(** X8. For every table on which the [units_sold] column is a series of
    integers and every non-empty selection of categories for which the
    filter returns a table: the [units_sold] series of the filtered table
    is the series of the original restricted to the rows the filter keeps
    (a subsequence, in order, never longer), and both calculators return
    on the filtered table: filtering introduces no error in them. *)
Theorem filter_restricts_units (df df' : DataFrame) (F : list string)
  (xs : list Z) :
  F <> [] ->
  units_sold df = Ok xs ->
  apply_filter F df = Ok df' ->
  exists cats,
    getitem df "category" = Ok cats /\
    units_sold df' = Ok (select (isin cats F) xs) /\
    subseq (select (isin cats F) xs) xs /\
    (List.length (select (isin cats F) xs) <= List.length xs)%nat /\
    calculate_descriptive_stats df' =
      Ok (descriptive_stats_of (select (isin cats F) xs)) /\
    forall T confidence_level test_mean,
      calculate_inferential_stats T df' confidence_level test_mean =
      Ok (inferential_stats_of T (select (isin cats F) xs)
            confidence_level test_mean).
Proof.
  intros HF Hu H. destruct F as [|f F]; [congruence|].
  unfold apply_filter in H.
  destruct (getitem df "category") as [cats|e] eqn:Hc; [|discriminate].
  simpl in H. injection H as <-.
  exists cats. split; [reflexivity|].
  pose proof (units_sold_mask df (isin cats (f :: F)) xs Hu) as Hm.
  split; [exact Hm|].
  split; [apply select_subseq|].
  split; [apply subseq_length, select_subseq|].
  unfold calculate_descriptive_stats, calculate_inferential_stats.
  rewrite Hm. split; [reflexivity | intros; reflexivity].
Qed.

Lemma filter_restricts_units_witness :
  units_sold (mkDataFrame schema
                [ sample_row 1 "Product 1" "Home" 20 (mkdate 2023 1 1);
                  sample_row 3 "Product 3" "Home" 20 (mkdate 2023 1 3) ])
  = Ok (select (isin [VStr "Home"; VStr "Sports"; VStr "Home"] ["Home"])
          [20; 25; 20]%Z).
Proof.
  assert (HF : ["Home"] <> @nil string) by discriminate.
  assert (Hu : units_sold tiny_frame = Ok [20; 25; 20]%Z) by reflexivity.
  assert (H : apply_filter ["Home"] tiny_frame =
              Ok (mkDataFrame schema
                    [ sample_row 1 "Product 1" "Home" 20 (mkdate 2023 1 1);
                      sample_row 3 "Product 3" "Home" 20 (mkdate 2023 1 3) ]))
    by reflexivity.
  destruct (filter_restricts_units _ _ _ _ HF Hu H) as (cats & Hc & Hx & _).
  assert (E : cats = [VStr "Home"; VStr "Sports"; VStr "Home"]).
  { assert (Hc' : getitem tiny_frame "category" =
                  Ok [VStr "Home"; VStr "Sports"; VStr "Home"])
      by reflexivity.
    rewrite Hc in Hc'. injection Hc' as E. exact E. }
  rewrite E in Hx. exact Hx.
Defined.

(** ** The script on the sample *)

Lemma sample_columns (G : RNG) (s : rng_state G) :
  let cats := np_random_choice G categories 20 (rng_seed G 42) in
  let units := np_random_poisson G 20 20 (snd cats) in
  let df := fst (generate_sample_data G s) in
  columns df = schema /\
  List.length (rows df) = 20%nat /\
  getitem df "category" = Ok (map VStr (fst cats)) /\
  units_sold df = Ok (fst units) /\
  List.length (fst cats) = 20%nat /\
  List.length (fst units) = 20%nat.
Proof.
  intros cats units df. subst df.
  rewrite generate_sample_data_eq. fold cats. fold units. cbn [fst].
  pose proof (np_random_choice_length G categories 20 (rng_seed G 42)) as Lc.
  fold cats in Lc.
  assert (Lu : List.length (fst units) = 20%nat) by (apply draws_length).
  destruct (zip_rows_columns (seq 1 20)
              (map (fun i => ("Product " ++ str_of_nat i)%string) (seq 1 20))
              (fst cats) (fst units) (date_range (mkdate 2023 1 1) 20))
    as (H0 & H1 & H2 & H3 & H4 & H5);
    try (rewrite ?length_map, ?length_seq; assumption || reflexivity).
  cbn zeta in *.
  split; [reflexivity|]. split; [exact H0|].
  unfold units_sold, getitem.
  cbn [columns rows schema index_of String.eqb Ascii.eqb Bool.eqb option_map].
  rewrite H3, H4. simpl bind. rewrite to_int64_ints.
  repeat split; assumption || reflexivity.
Qed.

Lemma select_all {A : Type} (mask : list bool) (l : list A) :
  List.length mask = List.length l ->
  Forall (fun b => b = true) mask -> select mask l = l.
Proof.
  revert l. induction mask as [|b mask IH]; intros [|x l] Hl Hm;
    try discriminate; [reflexivity|].
  inversion Hm as [|? ? Hb Hm']; subst. simpl. f_equal.
  apply IH; [simpl in Hl; lia | exact Hm'].
Qed.

(** X9. With no uploaded file, the load section, both calculators and the
    decision rule do not raise, whatever the random generator, its state
    and the selection of categories: the load section returns a table with
    the five columns of the schema whose rows are rows of the sample in
    their order, at most 20; its [units_sold] column is a series of
    integers; both calculators return on it and a verdict is reached.
    When the index draws of the generator are below their bound and the
    selection holds the four categories, the table is the whole sample. *)
Theorem sample_pipeline_never_raises (G : RNG) (s : rng_state G) (T : TDist)
  (F : list string) (confidence_level test_mean : R) :
  exists df xs,
    load_data G s None F = Ok df /\
    columns df = schema /\
    subseq (rows df) (rows (fst (generate_sample_data G s))) /\
    units_sold df = Ok xs /\
    (List.length xs <= 20)%nat /\
    calculate_descriptive_stats df = Ok (descriptive_stats_of xs) /\
    calculate_inferential_stats T df confidence_level test_mean =
      Ok (inferential_stats_of T xs confidence_level test_mean) /\
    (exists v,
       significance_verdict T df confidence_level test_mean = Ok v) /\
    ((forall s0 n, (0 < n)%nat -> (fst (rng_randint G s0 n) < n)%nat) ->
     (forall c, In c categories -> In c F) ->
     df = fst (generate_sample_data G s)).
Proof.
  destruct (sample_columns G s) as (Hcol & Hlen & Hcat & Hu & Lc & Lu).
  cbv zeta in *.
  set (sample := fst (generate_sample_data G s)) in *.
  set (cats := fst (np_random_choice G categories 20 (rng_seed G 42))) in *.
  set (units := fst (np_random_poisson G 20 20
                       (snd (np_random_choice G categories 20
                               (rng_seed G 42))))) in *.
  assert (Hcalc : forall df xs, units_sold df = Ok xs ->
            calculate_descriptive_stats df = Ok (descriptive_stats_of xs) /\
            calculate_inferential_stats T df confidence_level test_mean =
              Ok (inferential_stats_of T xs confidence_level test_mean) /\
            exists v,
              significance_verdict T df confidence_level test_mean = Ok v).
  { intros df xs E.
    unfold significance_verdict, calculate_descriptive_stats,
      calculate_inferential_stats.
    rewrite E. cbv [bind]. split; [reflexivity|]. split; [reflexivity|].
    eexists. reflexivity. }
  destruct F as [|f F].
  - exists sample, units.
    split; [reflexivity|]. split; [exact Hcol|].
    split.
    { replace (rows sample) with (filter (fun _ => true) (rows sample)) at 1.
      - apply subseq_filter.
      - apply forallb_filter_id, forallb_forall. reflexivity. }
    split; [exact Hu|]. split; [lia|].
    destruct (Hcalc sample units Hu) as (H1 & H2 & H3).
    repeat split; assumption || reflexivity.
  - set (mask := isin (map VStr cats) (f :: F)).
    exists (getitem_mask sample mask), (select mask units).
    assert (Hload : load_data G s None (f :: F) = Ok (getitem_mask sample mask)).
    { unfold load_data. cbv [bind]. fold sample. unfold apply_filter.
      rewrite Hcat. reflexivity. }
    pose proof (units_sold_mask sample mask units Hu) as Hm.
    split; [exact Hload|]. split; [exact Hcol|].
    split; [apply select_subseq|].
    split; [exact Hm|].
    split.
    { pose proof (subseq_length _ _ (select_subseq mask units)). lia. }
    destruct (Hcalc _ _ Hm) as (H1 & H2 & H3).
    split; [exact H1|]. split; [exact H2|]. split; [exact H3|].
    intros Hlt Hall.
    pose proof (np_random_choice_In G categories 20 (rng_seed G 42)
                  ltac:(discriminate) Hlt) as Mc.
    fold cats in Mc.
    unfold getitem_mask. rewrite select_all.
    + destruct sample as [cs rs]. reflexivity.
    + unfold mask, isin. rewrite !length_map. lia.
    + unfold mask, isin. apply Forall_map, Forall_map.
      eapply Forall_impl; [|exact Mc].
      intros c Hc. apply isin_cell_spec. exists c. split; [reflexivity|].
      apply Hall. exact Hc.
Qed.

Lemma sample_pipeline_never_raises_witness :
  exists df,
    load_data toy_rng 0%Z None categories = Ok df /\
    df = fst (generate_sample_data toy_rng 0%Z).
Proof.
  destruct (sample_pipeline_never_raises toy_rng 0%Z t_one_df categories
              (95 / 100) 20) as (df & xs & Hl & _ & _ & _ & _ & _ & _ & _ & Hall).
  exists df. split; [exact Hl|].
  apply Hall; [exact toy_rng_randint_lt | intros c Hc; exact Hc].
Defined.

(** ** Two selections *)

Lemma apply_filter_columns (F : list string) (df df' : DataFrame) :
  apply_filter F df = Ok df' -> columns df' = columns df.
Proof.
  destruct F as [|f F]; [intros [= <-]; reflexivity|].
  intros H. destruct (apply_filter_inv f F df df' H) as [_ ->]. reflexivity.
Qed.

Lemma apply_filter_missing (f : string) (F : list string) (df : DataFrame) :
  ~ In "category" (columns df) ->
  apply_filter (f :: F) df = Raise (KeyError "category").
Proof.
  intros Hn. unfold apply_filter. rewrite getitem_missing by exact Hn.
  reflexivity.
Qed.

Lemma filter_filter {A : Type} (p q : A -> bool) (l : list A) :
  filter p (filter q l) = filter (fun x => q x && p x) l.
Proof.
  induction l as [|x l IH]; simpl; [reflexivity|].
  destruct (q x) eqn:Eq; simpl; rewrite ?IH; reflexivity.
Qed.

Lemma isin_cell_members (F G : list string) (v : value) :
  (forall s, In s F <-> In s G) -> isin_cell F v = isin_cell G v.
Proof.
  intros H. apply eq_true_iff_eq. rewrite !isin_cell_spec.
  split; intros (s & Hs & Hin); exists s; (split; [exact Hs|]);
    apply H; exact Hin.
Qed.

(** X10. For every table and every two selections of categories F and G:
    filtering by F and then by G gives the same outcome (the same table or
    the same KeyError) as filtering by G and then by F; when both
    selections are non-empty and the table has a [category] column the
    outcome is the table of the rows whose category is in both, and it is
    empty when the selections share no category (whereas the empty
    selection itself keeps every row).  Two selections with the same
    members, in any order and with any repetitions, give the same
    outcome. *)
Theorem filters_commute (df : DataFrame) (F G : list string) :
  (d <- apply_filter F df ;; apply_filter G d) =
  (d <- apply_filter G df ;; apply_filter F d) /\
  (F <> [] -> G <> [] -> In "category" (columns df) ->
   (d <- apply_filter F df ;; apply_filter G d) =
   Ok (mkDataFrame (columns df)
         (filter (fun r => isin_cell F (category_of df r) &&
                           isin_cell G (category_of df r)) (rows df))) /\
   ((forall s, In s F -> ~ In s G) ->
    (d <- apply_filter F df ;; apply_filter G d) =
    Ok (mkDataFrame (columns df) []))) /\
  ((forall s, In s F <-> In s G) -> apply_filter F df = apply_filter G df).
Proof.
  assert (Hboth : forall f F' g G', In "category" (columns df) ->
            (d <- apply_filter (f :: F') df ;; apply_filter (g :: G') d) =
            Ok (mkDataFrame (columns df)
                  (filter (fun r => isin_cell (f :: F') (category_of df r) &&
                                    isin_cell (g :: G') (category_of df r))
                     (rows df)))).
  { intros f F' g G' Hin. rewrite apply_filter_rows by exact Hin.
    cbv [bind]. rewrite apply_filter_rows by exact Hin.
    unfold category_of. cbn [columns rows]. rewrite filter_filter.
    reflexivity. }
  split; [|split].
  - destruct F as [|f F'], G as [|g G'].
    + reflexivity.
    + cbv [bind apply_filter]. destruct (getitem df "category"); reflexivity.
    + cbv [bind apply_filter]. destruct (getitem df "category"); reflexivity.
    + destruct (in_dec string_dec "category" (columns df)) as [Hin|Hn].
      * rewrite !Hboth by exact Hin. f_equal. f_equal.
        apply filter_ext. intros r. apply andb_comm.
      * rewrite !apply_filter_missing by exact Hn. reflexivity.
  - intros HF HG Hin. destruct F as [|f F'], G as [|g G']; try congruence.
    split; [apply Hboth; exact Hin|].
    intros Hdis. rewrite Hboth by exact Hin. f_equal. f_equal.
    clear Hboth. induction (rows df) as [|r rs IH]; [reflexivity|].
    cbn [filter]. rewrite IH.
    destruct (isin_cell (f :: F') (category_of df r)) eqn:E1;
      [|reflexivity].
    destruct (isin_cell (g :: G') (category_of df r)) eqn:E2;
      [|reflexivity].
    apply isin_cell_spec in E1, E2.
    destruct E1 as (s1 & Hs1 & Hin1), E2 as (s2 & Hs2 & Hin2).
    rewrite Hs1 in Hs2. injection Hs2 as <-.
    exfalso. exact (Hdis s1 Hin1 Hin2).
  - intros Hm. destruct F as [|f F'], G as [|g G'].
    + reflexivity.
    + exfalso. apply (proj2 (Hm g)). left. reflexivity.
    + exfalso. apply (proj1 (Hm f)). left. reflexivity.
    + destruct (in_dec string_dec "category" (columns df)) as [Hin|Hn].
      * rewrite !apply_filter_rows by exact Hin. f_equal. f_equal.
        apply filter_ext. intros r. apply isin_cell_members. exact Hm.
      * rewrite !apply_filter_missing by exact Hn. reflexivity.
Qed.

Lemma filters_commute_witness :
  (d <- apply_filter ["Home"] tiny_frame ;; apply_filter ["Sports"] d) =
  Ok (mkDataFrame (columns tiny_frame) []).
Proof.
  assert (HF : ["Home"] <> @nil string) by discriminate.
  assert (HG : ["Sports"] <> @nil string) by discriminate.
  assert (Hin : In "category" (columns tiny_frame)) by (simpl; tauto).
  assert (Hdis : forall s, In s ["Home"] -> ~ In s ["Sports"]).
  { intros s [<-|[]] [E|[]]. discriminate. }
  exact (proj2 (proj1 (proj2 (filters_commute tiny_frame ["Home"] ["Sports"]))
                  HF HG Hin) Hdis).
Defined.

(** ** The filter and the download *)

(** The selection on the records of a table of sales. *)
Lemma apply_filter_frame_of (f : string) (F : list string)
  (t : list SalesRecord) :
  apply_filter (f :: F) (frame_of t) =
  Ok (frame_of (filter (fun r => existsb (String.eqb (category r)) (f :: F)) t)).
Proof.
  rewrite apply_filter_rows by (simpl; tauto).
  unfold frame_of, category_of. cbn [columns rows].
  change (index_of "category" schema) with (Some 2%nat). cbv beta iota.
  f_equal. f_equal.
  induction t as [|r t IH]; [reflexivity|].
  cbn [map filter]. rewrite IH.
  change (nth 2 (row_of r) VNaN) with (VStr (category r)).
  cbn [isin_cell].
  destruct (existsb (String.eqb (category r)) (f :: F)); reflexivity.
Qed.

Lemma apply_filter_reread (f : string) (F : list string)
  (t : list SalesRecord) :
  apply_filter (f :: F) (mkDataFrame schema (map reread_row t)) =
  Ok (mkDataFrame schema
        (map reread_row
           (filter (fun r => existsb (String.eqb (category r)) (f :: F)) t))).
Proof.
  rewrite apply_filter_rows by (simpl; tauto).
  unfold category_of. cbn [columns rows].
  change (index_of "category" schema) with (Some 2%nat). cbv beta iota.
  f_equal. f_equal.
  induction t as [|r t IH]; [reflexivity|].
  cbn [map filter]. rewrite IH.
  change (nth 2 (reread_row r) VNaN) with (VStr (category r)).
  cbn [isin_cell].
  destruct (existsb (String.eqb (category r)) (f :: F)); reflexivity.
Qed.

Lemma Forall_filter {A : Type} (P : A -> Prop) (p : A -> bool) (l : list A) :
  Forall P l -> Forall P (filter p l).
Proof.
  intros H. apply Forall_forall. intros x Hx. apply filter_In in Hx.
  rewrite Forall_forall in H. apply H. tauto.
Qed.

(** X11. For every table of sales records whose integers fit 64 bits and
    whose text fields hold no carriage return and do not read as a number,
    a boolean or a missing-value marker, and every selection of
    categories: downloading the filtered table and loading the text gives
    the same table as downloading the whole table, loading the text and
    filtering; it holds the records of the selection, in order, with the
    dates as ISO text. *)
Theorem filter_commutes_with_round_trip (t : list SalesRecord)
  (F : list string) :
  Forall record_ok t ->
  let kept :=
    match F with
    | [] => t
    | _ :: _ => filter (fun r => existsb (String.eqb (category r)) F) t
    end in
  (d <- apply_filter F (frame_of t) ;; load_csv (download_df d)) =
  Ok (mkDataFrame schema (map reread_row kept)) /\
  (d <- load_csv (download_df (frame_of t)) ;; apply_filter F d) =
  Ok (mkDataFrame schema (map reread_row kept)).
Proof.
  intros Hok kept. unfold load_csv, download_df.
  destruct F as [|f F]; subst kept.
  - cbv [apply_filter bind]. rewrite read_csv_to_csv by exact Hok.
    split; reflexivity.
  - rewrite apply_filter_frame_of. cbv [bind].
    rewrite read_csv_to_csv by (apply Forall_filter; exact Hok).
    rewrite read_csv_to_csv by exact Hok.
    rewrite apply_filter_reread. split; reflexivity.
Qed.

Lemma filter_commutes_with_round_trip_witness :
  (d <- apply_filter ["Sports"] (frame_of two_sales) ;;
   load_csv (download_df d)) =
  (d <- load_csv (download_df (frame_of two_sales)) ;;
   apply_filter ["Sports"] d).
Proof.
  destruct (filter_commutes_with_round_trip two_sales ["Sports"] two_sales_ok)
    as [H1 H2].
  rewrite H1, H2. reflexivity.
Defined.

(** ** Texts the reader rejects *)

(** On blanks and line ends the tokenizer stays between lines and reads
    no field. *)
Lemma blank_step (t : tokenizer) (c : ascii) :
  is_blank c || Ascii.eqb c LF || Ascii.eqb c CR = true ->
  lines t = [] -> fields t = [] ->
  state t = StartRecord \/ state t = WhitespaceLine \/ state t = EatCRNLNop ->
  lines (step t c) = [] /\ fields (step t c) = [] /\
  (state (step t c) = StartRecord \/ state (step t c) = WhitespaceLine \/
   state (step t c) = EatCRNLNop).
Proof.
  intros Hc Hl Hf Hs.
  assert (Hcases : c = " "%char \/ c = TAB \/ c = LF \/ c = CR).
  { apply orb_true_iff in Hc. destruct Hc as [Hc|Hc].
    - apply orb_true_iff in Hc. destruct Hc as [Hc|Hc].
      + unfold is_blank in Hc. apply orb_true_iff in Hc.
        destruct Hc as [Hc|Hc]; apply Ascii.eqb_eq in Hc; tauto.
      + apply Ascii.eqb_eq in Hc; tauto.
    - apply Ascii.eqb_eq in Hc; tauto. }
  destruct t as [st f fs ls]. cbn [lines fields state] in *. subst fs ls.
  destruct Hs as [->|[->| ->]];
    destruct Hcases as [->|[->|[->| ->]]]; cbn; tauto.
Qed.

Lemma blank_text (file : string) :
  forall t,
    forall_chars (fun c => is_blank c || Ascii.eqb c LF || Ascii.eqb c CR)
      file = true ->
    lines t = [] -> fields t = [] ->
    state t = StartRecord \/ state t = WhitespaceLine \/
    state t = EatCRNLNop ->
    handle_eof (tokenize_bytes file t) = Ok [].
Proof.
  induction file as [|c file IH]; intros t Hb Hl Hf Hs.
  - cbn [tokenize_bytes]. unfold handle_eof.
    destruct Hs as [->|[->| ->]]; rewrite Hl; reflexivity.
  - cbn [forall_chars] in Hb. apply andb_true_iff in Hb.
    destruct Hb as [Hc Hb].
    destruct (blank_step t c Hc Hl Hf Hs) as (Hl' & Hf' & Hs').
    cbn [tokenize_bytes]. apply IH; assumption.
Qed.

(** X12. A file with no visible line has no header: for every text made
    of spaces, tabs, line feeds and carriage returns only (the empty text
    included) the reader raises EmptyDataError, and so does the load
    section of the script, whatever the selection. *)
Theorem blank_file_is_empty_data (G : RNG) (s : rng_state G)
  (F : list string) (file : string) :
  forall_chars (fun c => is_blank c || Ascii.eqb c LF || Ascii.eqb c CR)
    file = true ->
  load_csv file = Raise EmptyDataError /\
  load_data G s (Some file) F = Raise EmptyDataError.
Proof.
  intros Hb.
  assert (Ht : tokenize file = Ok []).
  { unfold tokenize. apply blank_text; auto. }
  assert (Hr : load_csv file = Raise EmptyDataError).
  { unfold load_csv, read_csv. rewrite Ht. reflexivity. }
  split; [exact Hr|]. unfold load_data. rewrite Hr. reflexivity.
Qed.

Lemma blank_file_is_empty_data_witness :
  load_csv (String " " (String LF (String CR (String LF "")))) =
  Raise EmptyDataError.
Proof.
  exact (proj1 (blank_file_is_empty_data toy_rng 0%Z []
                  (String " " (String LF (String CR (String LF ""))))
                  eq_refl)).
Defined.

(** Inside a quoted field every character but the quote is pushed. *)
Lemma open_quote_run (body : string) :
  forall f fs ls,
    forall_chars (fun c => negb (Ascii.eqb c quote_char)) body = true ->
    state (tokenize_bytes body (mkTok InQuotedField f fs ls)) = InQuotedField.
Proof.
  induction body as [|c body IH]; intros f fs ls Hb; [reflexivity|].
  cbn [forall_chars] in Hb. apply andb_true_iff in Hb. destruct Hb as [Hc Hb].
  apply negb_true_iff in Hc.
  cbn [tokenize_bytes]. unfold step. cbn [state]. rewrite Hc.
  unfold push_char. cbn [state field fields lines]. apply IH. exact Hb.
Qed.

(** The fields of an unfinished line, each followed by a comma. *)
Lemma read_partial (pre : list string) :
  forall (acc : list string) (ls : list (list string)) (rest : string)
         (st : tstate),
    Forall (fun f => has_cr f = false) pre ->
    st = StartField \/
    (st = StartRecord /\ acc = [] /\
     match pre with [] => True | f :: _ => starts_visible f = true end) ->
    exists st',
      (st' = StartField \/ (st' = StartRecord /\ acc ++ pre = [])) /\
      tokenize_bytes
        (concat_lines (map (fun f => render_field f ++ ",")%string pre)
         ++ rest) (mkTok st "" acc ls) =
      tokenize_bytes rest (mkTok st' "" (acc ++ pre) ls).
Proof.
  induction pre as [|f pre IH]; intros acc ls rest st Hcr Hst.
  - exists st. rewrite app_nil_r. split; [|reflexivity].
    destruct Hst as [->|(-> & -> & _)]; [left | right]; auto.
  - inversion Hcr as [|? ? Hf Hrest]; subst.
    cbn [map concat_lines]. rewrite !append_assoc. cbn [append].
    rewrite read_field; [|left; reflexivity | | exact Hf].
    2:{ destruct Hst as [->|(-> & _ & Hv)]; [left | right]; auto. }
    change (step_in_field (mkTok InField f acc ls) ",")
      with (mkTok StartField "" (acc ++ [f]) ls).
    destruct (IH (acc ++ [f]) ls rest StartField Hrest (or_introl eq_refl))
      as (st' & Hst' & E).
    exists StartField. split; [left; reflexivity|].
    rewrite E, <- app_assoc. cbn [app].
    destruct Hst' as [->|[_ Hnil]]; [reflexivity|].
    destruct acc; discriminate.
Qed.

(** X13. A file that ends inside a quoted field is rejected: for every
    text made of complete lines as the writer produces them (possibly
    none), then fields of an unfinished line each followed by a comma
    (possibly none), then a quote that opens a field and any text without
    a quote after it, the reader raises ParserError, and so does the load
    section of the script. *)
Theorem unclosed_quote_is_parser_error (G : RNG) (s : rng_state G)
  (F : list string) (ls : list (list string)) (pre : list string)
  (body : string) :
  Forall line_ok ls ->
  pre = [] \/ line_ok pre ->
  forall_chars (fun c => negb (Ascii.eqb c quote_char)) body = true ->
  let file :=
    (concat_lines (map writerow ls)
     ++ concat_lines (map (fun f => render_field f ++ ",") pre)
     ++ String quote_char body)%string in
  load_csv file = Raise ParserError /\
  load_data G s (Some file) F = Raise ParserError.
Proof.
  intros Hls Hpre Hb file.
  assert (Ht : tokenize file = Raise ParserError).
  { unfold tokenize. subst file.
    rewrite tokenize_bytes_app, read_rows by exact Hls. cbn [app].
    destruct (read_partial pre [] ls (String quote_char body) StartRecord)
      as (st' & Hst' & E).
    - destruct Hpre as [->|Hok]; [constructor|].
      destruct pre as [|f pre]; [destruct Hok | exact (proj2 Hok)].
    - right. split; [reflexivity|]. split; [reflexivity|].
      destruct pre as [|f pre]; [exact I|].
      destruct Hpre as [Hnil|Hok]; [discriminate | exact (proj1 Hok)].
    - rewrite E. cbn [tokenize_bytes app].
      assert (Hq : step (mkTok st' "" pre ls) quote_char =
                   mkTok InQuotedField "" pre ls).
      { destruct Hst' as [->|[-> _]]; reflexivity. }
      rewrite Hq. unfold handle_eof.
      rewrite open_quote_run by exact Hb. reflexivity. }
  assert (Hr : load_csv file = Raise ParserError).
  { unfold load_csv, read_csv. rewrite Ht. reflexivity. }
  split; [exact Hr|]. unfold load_data. rewrite Hr. reflexivity.
Qed.

Lemma unclosed_quote_is_parser_error_witness :
  load_csv (concat_lines (map writerow [["category"; "units_sold"]])
            ++ concat_lines (map (fun f => render_field f ++ ",") ["Home"])
            ++ String quote_char "20")%string = Raise ParserError.
Proof.
  assert (Hls : Forall line_ok [["category"; "units_sold"]]).
  { repeat constructor. }
  assert (Hpre : ["Home"] = [] \/ line_ok ["Home"]).
  { right. repeat constructor. }
  exact (proj1 (unclosed_quote_is_parser_error toy_rng 0%Z []
                  [["category"; "units_sold"]] ["Home"] "20" Hls Hpre eq_refl)).
Defined.





(** ** Tables of text through the download and the upload *)





(** ** The totals of the bar plot *)

Lemma ascii_compare_refl (a : ascii) : Ascii.compare a a = Eq.
Proof. unfold Ascii.compare. apply N.compare_refl. Qed.

Lemma ascii_lt_trans (a b c : ascii) :
  Ascii.compare a b = Lt -> Ascii.compare b c = Lt -> Ascii.compare a c = Lt.
Proof.
  unfold Ascii.compare. rewrite !N.compare_lt_iff. apply N.lt_trans.
Qed.

Lemma str_compare_refl (s : string) : String.compare s s = Eq.
Proof.
  induction s as [|c s IH]; simpl; [reflexivity|].
  rewrite ascii_compare_refl. exact IH.
Qed.

Lemma str_lt_irrefl (s : string) : ~ str_lt s s.
Proof. unfold str_lt. rewrite str_compare_refl. discriminate. Qed.

Lemma str_lt_trans (x y z : string) : str_lt x y -> str_lt y z -> str_lt x z.
Proof.
  unfold str_lt. revert y z.
  induction x as [|a x IH]; intros [|b y] [|c z]; simpl; try congruence.
  destruct (Ascii.compare a b) eqn:Hab; try discriminate;
    destruct (Ascii.compare b c) eqn:Hbc; try discriminate; intros H1 H2.
  - apply Ascii.compare_eq_iff in Hab, Hbc. subst.
    rewrite ascii_compare_refl. eapply IH; eassumption.
  - apply Ascii.compare_eq_iff in Hab. subst. rewrite Hbc. reflexivity.
  - apply Ascii.compare_eq_iff in Hbc. subst. rewrite Hab. reflexivity.
  - rewrite (ascii_lt_trans a b c Hab Hbc). reflexivity.
Qed.

Lemma str_compare_gt (x y : string) : String.compare x y = Gt -> str_lt y x.
Proof.
  unfold str_lt. intros H. rewrite String.compare_antisym, H. reflexivity.
Qed.

Lemma insert_key_In (k x : string) (ks : list string) :
  In x (insert_key k ks) <-> x = k \/ In x ks.
Proof.
  induction ks as [|h rest IH]; simpl; [intuition|].
  destruct (String.compare k h) eqn:E; simpl.
  - apply String.compare_eq_iff in E. subst. intuition.
  - intuition.
  - rewrite IH. intuition.
Qed.

Lemma insert_key_sorted (k : string) (ks : list string) :
  StronglySorted str_lt ks -> StronglySorted str_lt (insert_key k ks).
Proof.
  induction 1 as [|h rest Hs IH Hall]; simpl.
  - repeat constructor.
  - destruct (String.compare k h) eqn:E.
    + constructor; assumption.
    + constructor; [constructor; assumption|].
      constructor; [exact E|].
      eapply Forall_impl; [|exact Hall].
      intros y Hy. eapply str_lt_trans; [exact E | exact Hy].
    + constructor; [exact IH|].
      apply Forall_forall. intros y Hy. apply insert_key_In in Hy.
      destruct Hy as [->|Hy]; [apply str_compare_gt; exact E|].
      rewrite Forall_forall in Hall. apply Hall. exact Hy.
Qed.

Lemma group_keys_In (keys : list string) (x : string) :
  In x (group_keys keys) <-> In x keys.
Proof.
  induction keys as [|k keys IH]; simpl; [tauto|].
  rewrite insert_key_In, IH. intuition.
Qed.

Lemma group_keys_sorted (keys : list string) :
  StronglySorted str_lt (group_keys keys).
Proof.
  induction keys as [|k keys IH]; simpl; [constructor|].
  apply insert_key_sorted. exact IH.
Qed.


(** Two strictly ascending lists with the same members are the same
    list. *)
Lemma sorted_unique (l1 l2 : list string) :
  StronglySorted str_lt l1 -> StronglySorted str_lt l2 ->
  (forall x, In x l1 <-> In x l2) -> l1 = l2.
Proof.
  intros H1. revert l2.
  induction H1 as [|a l1 Hs1 IH Ha]; intros l2 H2 Hm.
  - destruct l2 as [|b l2]; [reflexivity|].
    exfalso. apply (proj2 (Hm b)). left. reflexivity.
  - destruct H2 as [|b l2 Hs2 Hb].
    + exfalso. apply (proj1 (Hm a)). left. reflexivity.
    + rewrite Forall_forall in Ha, Hb.
      assert (E : a = b).
      { destruct (proj1 (Hm a) (or_introl eq_refl)) as [E|Hin];
          [symmetry; exact E|].
        destruct (proj2 (Hm b) (or_introl eq_refl)) as [E|Hin'];
          [exact E|].
        exfalso. apply (str_lt_irrefl a).
        eapply str_lt_trans; [apply Ha; exact Hin' | apply Hb; exact Hin]. }
      subst b. f_equal. apply IH; [exact Hs2|].
      intros x. split; intros Hx.
      * destruct (proj1 (Hm x) (or_intror Hx)) as [E|Hin]; [|exact Hin].
        subst x. exfalso. exact (str_lt_irrefl a (Ha a Hx)).
      * destruct (proj2 (Hm x) (or_intror Hx)) as [E|Hin]; [|exact Hin].
        subst x. exfalso. exact (str_lt_irrefl a (Hb a Hx)).
Qed.

Lemma filter_sorted (p : string -> bool) (l : list string) :
  StronglySorted str_lt l -> StronglySorted str_lt (filter p l).
Proof.
  induction 1 as [|h rest Hs IH Hall]; simpl; [constructor|].
  destruct (p h); [|exact IH].
  constructor; [exact IH|].
  apply Forall_forall. intros y Hy. apply filter_In in Hy.
  rewrite Forall_forall in Hall. apply Hall. tauto.
Qed.

Lemma zsum_cons (x : Z) (xs : list Z) : zsum (x :: xs) = (x + zsum xs)%Z.
Proof.
  unfold zsum. cbn [fold_left]. rewrite !fold_left_Zadd. lia.
Qed.

Lemma zsum_perm (xs ys : list Z) : Permutation xs ys -> zsum xs = zsum ys.
Proof.
  induction 1; rewrite ?zsum_cons; try lia; reflexivity.
Qed.

(** The sum of a group, on the records. *)
Lemma group_sum_records (t : list SalesRecord) (k : string) :
  group_sum (map category t) (map units t) k =
  zsum (map units (filter (fun r => String.eqb (category r) k) t)).
Proof.
  unfold group_sum. f_equal.
  induction t as [|r t IH]; [reflexivity|].
  cbn [map combine filter fst]. destruct (String.eqb (category r) k);
    cbn [map snd]; rewrite IH; reflexivity.
Qed.






Lemma filter_map_comm {A B : Type} (p : B -> bool) (f : A -> B)
  (l : list A) :
  filter p (map f l) = map f (filter (fun x => p (f x)) l).
Proof.
  induction l as [|x l IH]; [reflexivity|].
  cbn [map filter]. destruct (p (f x)); cbn [map]; rewrite IH; reflexivity.
Qed.

Lemma groupby_sum_records (t : list SalesRecord) :
  groupby_sum (map category t) (map units t) =
  map (fun k => (k, zsum (map units
                       (filter (fun r => String.eqb (category r) k) t))))
    (group_keys (map category t)).
Proof.
  unfold groupby_sum. apply map_ext. intros k.
  rewrite group_sum_records. reflexivity.
Qed.

(** X17. The totals follow the filter and ignore the order of the rows:
    for every table of sales records and every non-empty selection of
    categories, the totals of the filtered table are the rows of the
    totals of the whole table whose category is selected (the filter
    applied to the totals); and two tables with the same records in
    different orders have the same totals. *)
Theorem category_totals_follow_filter (t : list SalesRecord)
  (F : list string) :
  F <> [] ->
  (exists d,
     apply_filter F (frame_of t) = Ok d /\
     d = frame_of (filter (fun r => existsb (String.eqb (category r)) F) t)) /\
  apply_filter F (category_stats t) =
  Ok (category_stats
        (filter (fun r => existsb (String.eqb (category r)) F) t)) /\
  (forall t', Permutation t t' -> category_stats t' = category_stats t).
Proof.
  intros HF. destruct F as [|f F]; [congruence|].
  set (pF := fun r => existsb (String.eqb (category r)) (f :: F)).
  split; [eexists; split; [apply apply_filter_frame_of | reflexivity]|].
  split.
  - rewrite apply_filter_rows by (simpl; tauto).
    unfold category_of, category_stats. cbn [columns rows].
    change (index_of "category" ["category"; "units_sold"]) with (Some 0%nat).
    cbv beta iota. f_equal. f_equal.
    rewrite filter_map_comm. cbn [nth fst isin_cell]. f_equal.
    rewrite !groupby_sum_records, filter_map_comm. cbn [fst].
    assert (Hk : filter (fun k => existsb (String.eqb k) (f :: F))
                   (group_keys (map category t))
                 = group_keys (map category (filter pF t))).
    { apply sorted_unique.
      - apply filter_sorted, group_keys_sorted.
      - apply group_keys_sorted.
      - intros k. rewrite filter_In, !group_keys_In, !in_map_iff. split.
        + intros [(r & E & Hr) Hk]. exists r. split; [exact E|].
          apply filter_In. split; [exact Hr|]. unfold pF. rewrite E. exact Hk.
        + intros (r & E & Hr). apply filter_In in Hr. destruct Hr as [Hr Hp].
          split; [exists r; tauto|]. unfold pF in Hp. rewrite E in Hp.
          exact Hp. }
    rewrite <- Hk. apply map_ext_in. intros k Hin.
    apply filter_In in Hin. destruct Hin as [_ Hk'].
    f_equal. f_equal. f_equal.
    clear Hk. induction t as [|r t IH]; [reflexivity|].
    cbn [filter]. unfold pF at 1.
    destruct (String.eqb_spec (category r) k) as [E|Hne].
    + rewrite E, Hk'. cbn [filter]. rewrite E, String.eqb_refl, IH.
      reflexivity.
    + destruct (existsb (String.eqb (category r)) (f :: F)); [|exact IH].
      cbn [filter]. destruct (String.eqb_spec (category r) k); [congruence|].
      exact IH.
  - intros t' Hp. unfold category_stats. f_equal. f_equal.
    rewrite !groupby_sum_records.
    assert (Hk : group_keys (map category t') = group_keys (map category t)).
    { apply sorted_unique; try apply group_keys_sorted.
      intros k. rewrite !group_keys_In. split; intros H.
      - eapply Permutation_in; [|exact H].
        apply Permutation_map, Permutation_sym. exact Hp.
      - eapply Permutation_in; [|exact H]. apply Permutation_map. exact Hp. }
    rewrite Hk. apply map_ext. intros k. f_equal.
    apply zsum_perm, Permutation_map.
    apply Permutation_sym. clear Hk.
    induction Hp as [|x l l' _ IH|x y l|l l' l'' _ IH1 _ IH2]; cbn [filter].
    + constructor.
    + destruct (String.eqb (category x) k); [constructor|]; exact IH.
    + destruct (String.eqb (category x) k), (String.eqb (category y) k);
        try apply Permutation_refl. apply perm_swap.
    + eapply Permutation_trans; eassumption.
Qed.

Lemma category_totals_follow_filter_witness :
  apply_filter ["Sports"] (category_stats two_sales) =
  Ok (category_stats
        (filter (fun r => existsb (String.eqb (category r)) ["Sports"])
           two_sales)).
Proof.
  assert (HF : ["Sports"] <> @nil string) by discriminate.
  exact (proj1 (proj2 (category_totals_follow_filter two_sales ["Sports"] HF))).
Defined.

(** ** The verdict and the interval *)





(** ** Lines that are too short *)








(** ** The sample through the download and the upload *)

Lemma zip_rows_records (ids : list nat) :
  forall (names cats : list string) (units : list Z) (dates : list date),
    zip_rows ids names cats units dates =
    map row_of (zip_records ids names cats units dates).
Proof.
  induction ids as [|i ids IH]; intros names cats units dates;
    [reflexivity|].
  destruct names as [|n names], cats as [|c cats], units as [|u units],
    dates as [|d dates]; try reflexivity.
  cbn [zip_rows zip_records map]. rewrite IH. reflexivity.
Qed.

Lemma zip_records_ok (ids : list nat) :
  forall (names cats : list string) (us : list Z) (dates : list date),
    Forall (fun i => in_int64 (Z.of_nat i)) ids ->
    Forall text_kept names -> Forall text_kept cats ->
    Forall in_int64 us ->
    Forall record_ok (zip_records ids names cats us dates).
Proof.
  induction ids as [|i ids IH]; intros names cats us dates Hi Hn Hc Hu;
    [constructor|].
  destruct names as [|n names], cats as [|c cats], us as [|u us],
    dates as [|d dates]; try constructor.
  - inversion Hi; inversion Hn; inversion Hc; inversion Hu; subst.
    unfold record_ok. cbn [product_id product_name category units].
    split; [|split; [|split]]; assumption.
  - inversion Hi; inversion Hn; inversion Hc; inversion Hu; subst.
    apply IH; assumption.
Qed.

Lemma sample_names_kept :
  Forall text_kept
    (map (fun i => ("Product " ++ str_of_nat i)%string) (seq 1 20)).
Proof.
  repeat constructor.
Qed.

Lemma categories_kept : Forall text_kept categories.
Proof.
  repeat constructor.
Qed.

Lemma sample_ids_fit : Forall (fun i => in_int64 (Z.of_nat i)) (seq 1 20).
Proof.
  apply Forall_forall. intros i Hi. apply in_seq in Hi.
  unfold in_int64, int64_min, int64_max. lia.
Qed.

Lemma Ok_inj {A : Type} (a b : A) : Ok a = Ok b -> a = b.
Proof. intros [= H]. exact H. Qed.

Lemma map_VDate_inj (l l' : list date) : map VDate l = map VDate l' -> l = l'.
Proof.
  revert l'. induction l as [|a l IH]; intros [|b l'] H; try discriminate;
    [reflexivity|].
  cbn [map] in H. injection H as -> H. f_equal. apply IH. exact H.
Qed.

(** The sample is a table of sales records that the round trip keeps. *)
Lemma sample_records (G : RNG) (s : rng_state G) :
  (forall s0 n, (0 < n)%nat -> (fst (rng_randint G s0 n) < n)%nat) ->
  (forall s0, in_int64 (fst (rng_poisson G s0 20))) ->
  exists t,
    fst (generate_sample_data G s) = frame_of t /\ Forall record_ok t.
Proof.
  intros Hlt Hfit. rewrite generate_sample_data_eq. cbn [fst].
  rewrite zip_rows_records. eexists. split; [reflexivity|].
  apply zip_records_ok.
  - exact sample_ids_fit.
  - exact sample_names_kept.
  - pose proof (np_random_choice_In G categories 20 (rng_seed G 42)
                  ltac:(discriminate) Hlt) as Mc.
    eapply Forall_impl; [|exact Mc].
    intros c Hc. pose proof categories_kept as Hk.
    rewrite Forall_forall in Hk. apply Hk. exact Hc.
  - unfold np_random_poisson.
    apply (draws_Forall G (fun s0 => rng_poisson G s0 20) in_int64 Hfit).
Qed.

(** X20. Downloading the sample and uploading it back gives the same
    statistics: for every random generator whose index draws are below
    their bound and whose Poisson draws fit 64 bits, loading the text
    downloaded from the sample returns a table with the columns of the
    sample and its 20 rows, with [product_id], [product_name], [category]
    and [units_sold] as in the sample and the dates as ISO text; both
    calculators return on it what they return on the sample, and the
    filter selects the same rows of it. *)
Theorem sample_round_trip (G : RNG) (s : rng_state G) :
  (forall s0 n, (0 < n)%nat -> (fst (rng_randint G s0 n) < n)%nat) ->
  (forall s0, in_int64 (fst (rng_poisson G s0 20))) ->
  let sample := fst (generate_sample_data G s) in
  exists back,
    load_csv (download_df sample) = Ok back /\
    columns back = columns sample /\
    List.length (rows back) = 20%nat /\
    getitem back "product_id" = getitem sample "product_id" /\
    getitem back "product_name" = getitem sample "product_name" /\
    getitem back "category" = getitem sample "category" /\
    getitem back "units_sold" = getitem sample "units_sold" /\
    getitem back "sale_date" =
      Ok (map (fun d => VStr (isoformat d)) (date_range (mkdate 2023 1 1) 20)) /\
    calculate_descriptive_stats back = calculate_descriptive_stats sample /\
    (forall T confidence_level test_mean,
       calculate_inferential_stats T back confidence_level test_mean =
       calculate_inferential_stats T sample confidence_level test_mean) /\
    (forall F,
       (d <- apply_filter F sample ;; load_csv (download_df d)) =
       apply_filter F back).
Proof.
  intros Hlt Hfit sample.
  destruct (sample_records G s Hlt Hfit) as (t & Hs & Hok).
  fold sample in Hs.
  destruct (sample_columns G s) as (_ & Hlen & _).
  cbv zeta in Hlen. fold sample in Hlen.
  assert (Ht : List.length t = 20%nat).
  { rewrite Hs in Hlen. unfold frame_of in Hlen. cbn [rows] in Hlen.
    rewrite length_map in Hlen. exact Hlen. }
  assert (Hdates : map sale_date t = date_range (mkdate 2023 1 1) 20).
  { pose proof (generate_sample_data_eq G s) as E. cbv zeta in E.
    fold sample in E.
    assert (Hg : getitem sample "sale_date" =
                 Ok (map VDate (date_range (mkdate 2023 1 1) 20))).
    { destruct (zip_rows_columns (seq 1 20)
                  (map (fun i => ("Product " ++ str_of_nat i)%string) (seq 1 20))
                  (fst (np_random_choice G categories 20 (rng_seed G 42)))
                  (fst (np_random_poisson G 20 20
                          (snd (np_random_choice G categories 20
                                  (rng_seed G 42)))))
                  (date_range (mkdate 2023 1 1) 20))
        as (_ & _ & _ & _ & _ & H5);
        try (rewrite ?length_map, ?length_seq; reflexivity);
        try apply np_random_choice_length; try apply draws_length.
      cbv zeta in H5. unfold sample. rewrite generate_sample_data_eq.
      cbn [fst]. unfold getitem.
      cbn [columns rows schema index_of String.eqb Ascii.eqb Bool.eqb
             option_map].
      rewrite H5. reflexivity. }
    rewrite Hs in Hg. unfold frame_of, getitem in Hg.
    cbn [columns rows schema index_of String.eqb Ascii.eqb Bool.eqb
           option_map] in Hg.
    rewrite map_map in Hg. cbn [row_of nth] in Hg.
    apply Ok_inj in Hg. rewrite <- (map_map sale_date VDate) in Hg.
    apply map_VDate_inj. exact Hg. }
  exists (mkDataFrame schema (map reread_row t)).
  assert (Hload : load_csv (download_df sample) =
                  Ok (mkDataFrame schema (map reread_row t))).
  { rewrite Hs. unfold load_csv, download_df. apply read_csv_to_csv.
    exact Hok. }
  assert (Hunits : units_sold (mkDataFrame schema (map reread_row t)) =
                   units_sold sample).
  { rewrite Hs. unfold units_sold, frame_of, getitem.
    cbn [columns rows schema index_of String.eqb Ascii.eqb Bool.eqb
           option_map].
    rewrite !map_map. reflexivity. }
  split; [exact Hload|].
  rewrite Hs at 1 2 3 4 5. unfold frame_of, getitem. cbn [columns rows].
  split; [reflexivity|].
  split; [rewrite length_map; exact Ht|].
  cbn [schema index_of String.eqb Ascii.eqb Bool.eqb option_map].
  rewrite !map_map. cbn [reread_row row_of nth].
  split; [reflexivity|]. split; [reflexivity|]. split; [reflexivity|].
  split; [reflexivity|].
  split; [rewrite <- Hdates, map_map; reflexivity|].
  unfold calculate_descriptive_stats, calculate_inferential_stats.
  rewrite Hunits.
  split; [reflexivity|]. split; [intros; reflexivity|].
  intros F. rewrite Hs. destruct F as [|f F].
  - cbv [apply_filter bind]. unfold load_csv, download_df.
    rewrite read_csv_to_csv by exact Hok. reflexivity.
  - rewrite apply_filter_frame_of. cbv [bind].
    unfold load_csv, download_df.
    rewrite read_csv_to_csv by (apply Forall_filter; exact Hok).
    rewrite apply_filter_reread. reflexivity.
Qed.

Lemma toy_rng_poisson_fits (s0 : rng_state toy_rng) :
  in_int64 (fst (rng_poisson toy_rng s0 20)).
Proof.
  cbn [rng_poisson toy_rng fst].
  pose proof (Z.mod_pos_bound (s0 / 65536) 7 ltac:(lia)).
  unfold in_int64, int64_min, int64_max. lia.
Qed.

Lemma sample_round_trip_witness :
  exists back,
    load_csv (download_df (fst (generate_sample_data toy_rng 0%Z))) = Ok back /\
    calculate_descriptive_stats back =
    calculate_descriptive_stats (fst (generate_sample_data toy_rng 0%Z)).
Proof.
  destruct (sample_round_trip toy_rng 0%Z toy_rng_randint_lt
              toy_rng_poisson_fits)
    as (back & H1 & _ & _ & _ & _ & _ & _ & _ & H9 & _).
  exists back. split; [exact H1 | exact H9].
Defined.

(** ** Line endings *)

(** One field as the writer renders it, read up to its last character. *)
Lemma read_field_open (s : string) (st : tstate) (fs : list string)
  (ls : list (list string)) :
  st = StartField \/ (st = StartRecord /\ starts_visible s = true) ->
  has_cr s = false ->
  exists st',
    tokenize_bytes (render_field s) (mkTok st "" fs ls) = mkTok st' s fs ls /\
    (st' = InField \/ st' = QuoteInQuotedField \/
     (st' = StartField /\ s = "")).
Proof.
  intros Hst Hcr. unfold render_field.
  destruct (needs_quote s) eqn:Hq.
  - cbn [tokenize_bytes].
    assert (H1 : step (mkTok st "" fs ls) quote_char =
                 mkTok InQuotedField "" fs ls).
    { destruct Hst as [->|[-> _]]; reflexivity. }
    rewrite H1, tokenize_bytes_app, quoted_run. cbn [append tokenize_bytes].
    exists QuoteInQuotedField. split; [reflexivity | tauto].
  - destruct s as [|a s].
    + destruct Hst as [->|[_ Hv]]; [|discriminate].
      exists StartField. split; [reflexivity | tauto].
    + simpl in Hq, Hcr.
      apply orb_false_iff in Hq. destruct Hq as [Hsp Hq].
      apply orb_false_iff in Hcr. destruct Hcr as [Hacr Hcr].
      destruct (is_special_false a Hsp) as (H1 & H2 & H3).
      cbn [tokenize_bytes].
      assert (Hstep : step (mkTok st "" fs ls) a =
                      mkTok InField (String a "") fs ls).
      { destruct Hst as [->|[-> Hv]].
        - unfold step, step_start_field. cbn [state].
          rewrite H3, Hacr, H2, H1. reflexivity.
        - simpl in Hv. apply negb_true_iff in Hv.
          unfold step, step_start_record, step_start_field. cbn [state].
          rewrite H3, Hacr, Hv, H2, H1. reflexivity. }
      rewrite Hstep, in_field_run by assumption.
      exists InField. split; [reflexivity | tauto].
Qed.

Lemma join_fields_snoc (pre : list string) (last : string) :
  join_fields (map render_field (pre ++ [last])) =
  (concat_lines (map (fun f => render_field f ++ ",") pre)
   ++ render_field last)%string.
Proof.
  induction pre as [|f pre IH]; [reflexivity|].
  cbn [app map concat_lines]. rewrite append_assoc, <- IH. cbn [append].
  destruct (pre ++ [last]) eqn:E; [destruct pre; discriminate|].
  cbn [map join_fields]. rewrite append_assoc. reflexivity.
Qed.

(** A line without its terminator, read from the start of a line: the
    tokenizer holds its last field open. *)
Lemma read_line_open (l : list string) (ls : list (list string)) :
  line_ok l ->
  exists pre last st',
    l = pre ++ [last] /\
    tokenize_bytes (join_fields (map render_field l))
      (mkTok StartRecord "" [] ls) = mkTok st' last pre ls /\
    (st' = InField \/ st' = QuoteInQuotedField \/
     (st' = StartField /\ last = "")).
Proof.
  intros Hok.
  assert (Hne : l <> []) by (destruct l; [destruct Hok | discriminate]).
  destruct (exists_last Hne) as (pre & last & ->).
  exists pre, last.
  assert (Hcr : Forall (fun s => has_cr s = false) (pre ++ [last])).
  { destruct (pre ++ [last]); [destruct Hok | exact (proj2 Hok)]. }
  apply Forall_app in Hcr. destruct Hcr as [Hpre Hlast].
  inversion Hlast as [|? ? Hl _]; subst.
  rewrite join_fields_snoc.
  destruct (read_partial pre [] ls (render_field last) StartRecord Hpre)
    as (st1 & Hst1 & E).
  { right. split; [reflexivity|]. split; [reflexivity|].
    destruct pre as [|f pre]; [exact I|]. exact (proj1 Hok). }
  rewrite E. cbn [app].
  destruct (read_field_open last st1 pre ls) as (st' & E' & Hst').
  - destruct Hst1 as [->|[-> Hnil]]; [left; reflexivity|].
    right. split; [reflexivity|].
    cbn [app] in Hnil. subst pre. exact (proj1 Hok).
  - exact Hl.
  - exists st'. split; [reflexivity|]. split; [exact E' | exact Hst'].
Qed.

Lemma writerow_crlf_text (l : list string) :
  line_ok l ->
  writerow_crlf l =
  (join_fields (map render_field l) ++ String CR (String LF ""))%string /\
  writerow l = (join_fields (map render_field l) ++ String LF "")%string.
Proof.
  destruct l as [|f fs]; [intros []|]. intros [Hv _].
  destruct f as [|a f]; [discriminate|]. split; reflexivity.
Qed.

(** One line ended by a carriage return and a line feed. *)
Lemma read_row_crlf (l : list string) (ls : list (list string))
  (rest : string) :
  line_ok l ->
  tokenize_bytes (writerow_crlf l ++ rest) (mkTok StartRecord "" [] ls) =
  tokenize_bytes rest (mkTok StartRecord "" [] (ls ++ [l])).
Proof.
  intros Hok. rewrite (proj1 (writerow_crlf_text l Hok)).
  destruct (read_line_open l ls Hok) as (pre & last & st' & -> & E & Hst').
  rewrite append_assoc, tokenize_bytes_app, E. cbn [append tokenize_bytes].
  destruct Hst' as [->|[->|[-> ->]]]; reflexivity.
Qed.

Lemma read_rows_crlf (rs : list (list string)) :
  forall ls,
    Forall line_ok rs ->
    tokenize_bytes (concat_lines (map writerow_crlf rs))
                   (mkTok StartRecord "" [] ls) =
    mkTok StartRecord "" [] (ls ++ rs).
Proof.
  induction rs as [|r rs IH]; intros ls Hok; simpl.
  - rewrite app_nil_r. reflexivity.
  - inversion Hok; subst.
    rewrite read_row_crlf by assumption. rewrite IH by assumption.
    rewrite <- app_assoc. reflexivity.
Qed.

(** X21. Line endings do not matter to the reader: for every header and
    data lines as the writer renders them, the text whose lines end with a
    carriage return and a line feed, and the text whose last line has no
    line end at all, are loaded as the same table as the text whose lines
    all end with a line feed. *)
Theorem line_endings_do_not_matter (h last : list string)
  (rs : list (list string)) :
  line_ok h -> Forall line_ok rs -> line_ok last ->
  load_csv (concat_lines (map writerow_crlf (h :: rs ++ [last]))) =
  load_csv (concat_lines (map writerow (h :: rs ++ [last]))) /\
  load_csv (concat_lines (map writerow (h :: rs))
            ++ join_fields (map render_field last))%string =
  load_csv (concat_lines (map writerow (h :: rs ++ [last]))) /\
  load_csv (join_fields (map render_field h)) =
  load_csv (writerow h).
Proof.
  intros Hh Hrs Hlast.
  assert (Hall : Forall line_ok (h :: rs ++ [last])).
  { constructor; [exact Hh|]. apply Forall_app. split; [exact Hrs|].
    constructor; [exact Hlast | constructor]. }
  assert (Hlf : tokenize (concat_lines (map writerow (h :: rs ++ [last]))) =
                Ok (h :: rs ++ [last])).
  { apply (tokenize_written h (rs ++ [last]) Hh).
    inversion Hall; assumption. }
  assert (Hcrlf : tokenize (concat_lines (map writerow_crlf
                                            (h :: rs ++ [last]))) =
                  Ok (h :: rs ++ [last])).
  { unfold tokenize. rewrite read_rows_crlf by exact Hall. reflexivity. }
  assert (Heof : forall l ls, line_ok l ->
            handle_eof (tokenize_bytes (join_fields (map render_field l))
                          (mkTok StartRecord "" [] ls)) = Ok (ls ++ [l])).
  { intros l ls Hl.
    destruct (read_line_open l ls Hl) as (pre & lst & st' & -> & E & Hst').
    rewrite E. destruct Hst' as [->|[->|[-> ->]]]; reflexivity. }
  assert (Hopen : tokenize (concat_lines (map writerow (h :: rs))
                            ++ join_fields (map render_field last))%string =
                  Ok (h :: rs ++ [last])).
  { unfold tokenize. rewrite tokenize_bytes_app.
    rewrite read_rows by (constructor; assumption).
    rewrite Heof by exact Hlast. reflexivity. }
  unfold load_csv, read_csv. rewrite Hlf, Hcrlf, Hopen.
  split; [reflexivity|]. split; [reflexivity|].
  assert (H1 : tokenize (join_fields (map render_field h)) = Ok [h]).
  { unfold tokenize. rewrite Heof by exact Hh. reflexivity. }
  assert (H2 : tokenize (writerow h) = Ok [h]).
  { rewrite <- (append_nil_r (writerow h)).
    exact (tokenize_written h [] Hh (Forall_nil _)). }
  rewrite H1, H2. reflexivity.
Qed.

Lemma line_endings_do_not_matter_witness :
  load_csv (concat_lines (map writerow_crlf
              [["category"; "units_sold"]; ["Home"; "20"]])) =
  load_csv (concat_lines (map writerow
              [["category"; "units_sold"]; ["Home"; "20"]])).
Proof.
  assert (Hh : line_ok ["category"; "units_sold"]) by (repeat constructor).
  assert (Hl : line_ok ["Home"; "20"]) by (repeat constructor).
  exact (proj1 (line_endings_do_not_matter ["category"; "units_sold"]
                  ["Home"; "20"] [] Hh (Forall_nil _) Hl)).
Defined.
